(** * A todo store with copy-on-write updates (src/App.js)

    Shallow embedding of the [Store] class, of the action functions
    [fetchTodos], [saveTodo], [updateTodo], [removeTodo], [selectTodo] and of
    the single-threaded event loop that runs their [setTimeout] callbacks.

    - State snapshots live in a heap and are named by their address, so that
      [!==] on snapshots is address comparison.
    - The immer draft handed to an updater is a record [base]/[copy]/[modified];
      an updater is a computation in the [Recipe] monad, whose state is the
      draft together with the two effects updaters of this file have besides
      editing: drawing from [Math.random()] and calling a promise's [resolve].
    - Listeners are opaque callbacks identified by their function object; each
      invocation is appended to a log together with the snapshot it received.
      (The only listener of the program is [state => this.setState(state)],
      which does not call back into the store.) *)

From Stdlib Require Import ZArith List String Bool Lia PeanoNat.
Import ListNotations.

(* ================================================================= *)
(** ** JavaScript values *)

(** A finite double is an integer multiple of [2^-1074]; a number [x] is
    represented by the integer [x * 2^1074].  On this representation [===] is
    integer equality and a number is falsy exactly when it is [0].  Ids are
    never [NaN]: they come from [Math.random()]. *)
Definition number := Z.

Definition truthy_number (n : number) : bool := negb (n =? 0)%Z.

(** [Math.random()] returns a double in [[0, 1)]. *)
Definition in_random_range (n : number) : Prop := (0 <= n < 2 ^ 1074)%Z.

(** { id?: number, title: string, done: boolean } *)
Record Todo := mkTodo {
  id : option number;      (* [None]: the property is absent (undefined) *)
  title : string;
  done : bool
}.

(** Truthiness of [todo.id]: undefined and 0 are falsy. *)
Definition truthy_id (i : option number) : bool :=
  match i with
  | Some n => truthy_number n
  | None => false
  end.

(** [a === b] on two values that are each a number or undefined. *)
Definition strict_eq (a b : option number) : bool :=
  match a, b with
  | Some x, Some y => (x =? y)%Z
  | None, None => true
  | _, _ => false
  end.

(** The argument of [updateTodo]: an object carrying any subset of the keys
    of a todo.  [p_id = Some None] is the object [{id: undefined}]. *)
Record Partial := mkPartial {
  p_id : option (option number);
  p_title : option string;
  p_done : option bool
}.

(** [{ ...t, ...p }] *)
Definition spread (t : Todo) (p : Partial) : Todo :=
  {| id := match p_id p with Some v => v | None => id t end;
     title := match p_title p with Some v => v | None => title t end;
     done := match p_done p with Some v => v | None => done t end |}.

(** The application state (the object passed to [new Store]). *)
Record AppState := mkState {
  saving : bool;
  loading : bool;
  todo : Todo;
  todos : list Todo
}.

(** [{ title: '', done: false }] *)
Definition empty_todo : Todo :=
  {| id := None; title := EmptyString; done := false |}.

Definition initialState : AppState :=
  {| saving := false; loading := false; todo := empty_todo; todos := [] |}.

Definition with_saving (v : bool) (s : AppState) : AppState :=
  {| saving := v; loading := loading s; todo := todo s; todos := todos s |}.
Definition with_loading (v : bool) (s : AppState) : AppState :=
  {| saving := saving s; loading := v; todo := todo s; todos := todos s |}.
Definition with_todo (v : Todo) (s : AppState) : AppState :=
  {| saving := saving s; loading := loading s; todo := v; todos := todos s |}.
Definition with_todos (v : list Todo) (s : AppState) : AppState :=
  {| saving := saving s; loading := loading s; todo := todo s; todos := v |}.

(** An object passed by a caller and assigned to a property of the draft is
    either the very object the base state holds in that property, or another
    object, of which only the content matters. *)
Inductive ObjArg :=
  | Held
  | Other (v : Todo).

(* ================================================================= *)
(** ** The heap of snapshots *)

Definition loc := nat.

Record Heap := mkHeap {
  objs : loc -> AppState;
  next_loc : loc
}.

Definition deref (h : Heap) (l : loc) : AppState := objs h l.

(** Allocation of a new object. *)
Definition alloc (h : Heap) (s : AppState) : loc * Heap :=
  (next_loc h,
   {| objs := fun l => if Nat.eqb l (next_loc h) then s else objs h l;
      next_loc := S (next_loc h) |}).

(* ================================================================= *)
(** ** immer: drafts and [produce] *)

Definition promise := nat.

(** What an updater can touch besides its draft. *)
Record Env := mkEnv {
  rng : nat -> number;     (* the successive results of Math.random() *)
  cursor : nat;            (* how many have been drawn *)
  resolved : list promise  (* promises whose resolve() has been called *)
}.

Record Draft := mkDraft {
  base : AppState;
  copy : AppState;
  modified : bool
}.

Definition createDraft (s : AppState) : Draft :=
  {| base := s; copy := s; modified := false |}.

Definition Recipe (A : Type) : Type := Draft -> Env -> A * Draft * Env.

Definition ret {A} (a : A) : Recipe A := fun d e => (a, d, e).

Definition bind {A B} (m : Recipe A) (k : A -> Recipe B) : Recipe B :=
  fun d e => let '(a, d', e') := m d e in k a d' e'.

Declare Scope recipe_scope.
Delimit Scope recipe_scope with recipe.
Notation "x <- m ;; k" := (bind m (fun x => k))
  (at level 61, m at next level, right associativity) : recipe_scope.
Notation "m ;; k" := (bind m (fun _ => k))
  (at level 61, right associativity) : recipe_scope.
Open Scope recipe_scope.

(** Writing [v] through the proxy: nothing happens while the draft is
    unmodified and [v] is identical to what the base holds; otherwise the
    draft is marked modified and the copy receives [v]. *)
Definition write (unchanged : bool) (f : AppState -> AppState) : Recipe unit :=
  fun d e =>
    if negb (modified d) && unchanged then (tt, d, e)
    else (tt, {| base := base d; copy := f (copy d); modified := true |}, e).

(** [draft.saving = v] *)
Definition assign_saving (v : bool) : Recipe unit :=
  fun d e => write (Bool.eqb (saving (base d)) v) (with_saving v) d e.

(** [draft.loading = v] *)
Definition assign_loading (v : bool) : Recipe unit :=
  fun d e => write (Bool.eqb (loading (base d)) v) (with_loading v) d e.

(** [draft.todo = v] *)
Definition assign_todo (v : ObjArg) : Recipe unit :=
  fun d e =>
    match v with
    | Held => write true (with_todo (todo (base d))) d e
    | Other t => write false (with_todo t) d e
    end.

(** [draft.todos = v] where [v] is a newly built array. *)
Definition assign_todos (v : list Todo) : Recipe unit :=
  write false (with_todos v).

(** [draft.todo] *)
Definition get_todo : Recipe Todo := fun d e => (todo (copy d), d, e).

(** [draft.todos] *)
Definition get_todos : Recipe (list Todo) := fun d e => (todos (copy d), d, e).

(** [todo.id = v] where [todo] is the nested draft [draft.todo]; a change of
    the nested draft marks its parent. *)
Definition assign_todo_id (v : number) : Recipe unit :=
  fun d e =>
    write (strict_eq (id (todo (base d))) (Some v))
          (fun s => with_todo {| id := Some v; title := title (todo s);
                                 done := done (todo s) |} s) d e.

(** [draft.todos.push(t)] *)
Definition push_todos (t : Todo) : Recipe unit :=
  write false (fun s => with_todos (todos s ++ [t]) s).

(** [Math.random()] *)
Definition Math_random : Recipe number :=
  fun d e => (rng e (cursor e), d,
              {| rng := rng e; cursor := S (cursor e); resolved := resolved e |}).

(** [resolve()] of the promise [p] *)
Definition resolve (p : promise) : Recipe unit :=
  fun d e => (tt, d,
              {| rng := rng e; cursor := cursor e; resolved := p :: resolved e |}).

(** Modelled from the spec: immer's [produce] is imported, not defined in
    this repository.  "Given a mutable-looking editing function and a current
    state snapshot, produces a new snapshot reflecting the edits, leaving the
    original untouched unless nothing changed (in which case no new snapshot
    is produced)."  The recipe of [Store.update] returns undefined, so the
    result is the finalized draft. *)
Definition produce (h : Heap) (baseState : loc) (recipe : Recipe unit) (e : Env)
  : loc * Heap * Env :=
  let '(_, d, e') := recipe (createDraft (deref h baseState)) e in
  if modified d
  then let '(l, h') := alloc h (copy d) in (l, h', e')
  else (baseState, h, e').

(* ================================================================= *)
(** ** class Store *)

Definition listener := nat.

(** A [Set] of listeners iterates in insertion order. *)
Definition set_add (l : listener) (ls : list listener) : list listener :=
  if existsb (Nat.eqb l) ls then ls else ls ++ [l].

Definition set_delete (l : listener) (ls : list listener) : list listener :=
  filter (fun x => negb (Nat.eqb x l)) ls.

Inductive Task :=
  | FetchCallback (p : promise)
  | SaveCallback (p : promise)
  | RemoveCallback (t : Todo) (p : promise).

Record World := mkWorld {
  heap : Heap;
  state : loc;                      (* store.state *)
  listeners : list listener;        (* store.listeners *)
  env : Env;
  calls : list (listener * loc);    (* listener invocations, oldest first *)
  timers : list Task;               (* pending setTimeout callbacks, in firing order *)
  next_promise : promise
}.

Definition with_listeners (ls : list listener) (w : World) : World :=
  {| heap := heap w; state := state w; listeners := ls; env := env w;
     calls := calls w; timers := timers w; next_promise := next_promise w |}.

(** [fn(this.state)] *)
Definition call (fn : listener) (w : World) : World :=
  {| heap := heap w; state := state w; listeners := listeners w; env := env w;
     calls := calls w ++ [(fn, state w)]; timers := timers w;
     next_promise := next_promise w |}.

(** [subscribe(listener)]: returns the unsubscribe closure. *)
Definition subscribe (l : listener) (w : World) : (World -> World) * World :=
  (fun w' => with_listeners (set_delete l (listeners w')) w',
   with_listeners (set_add l (listeners w)) w).

(** [notify()] *)
Definition notify (w : World) : World :=
  fold_left (fun w' fn => call fn w') (listeners w) w.

(** An object reference is truthy. *)
Definition truthy_object (l : loc) : bool := true.

(** [update(updater)] *)
Definition update (updater : Recipe unit) (w : World) : World :=
  let '(newState, h, e) := produce (heap w) (state w) updater (env w) in
  let w' := {| heap := h; state := state w; listeners := listeners w; env := e;
               calls := calls w; timers := timers w;
               next_promise := next_promise w |} in
  if truthy_object newState && negb (Nat.eqb newState (state w))
  then notify {| heap := h; state := newState; listeners := listeners w;
                 env := e; calls := calls w; timers := timers w;
                 next_promise := next_promise w |}
  else w'.

(** The snapshot the store currently holds. *)
Definition current (w : World) : AppState := deref (heap w) (state w).

(** [new Store({...})], with no timer pending. *)
Definition store (r : nat -> number) : World :=
  {| heap := {| objs := fun _ => initialState; next_loc := 1 |};
     state := 0;
     listeners := [];
     env := {| rng := r; cursor := 0; resolved := [] |};
     calls := [];
     timers := [];
     next_promise := 0 |}.

(* ================================================================= *)
(** ** Action functions *)

(** [new Promise(resolve => { setTimeout(callback, 1000) })]: every timer of
    the program has the same delay, so callbacks fire in the order in which
    they were scheduled. *)
Definition new_promise_setTimeout (callback : promise -> Task) (w : World)
  : promise * World :=
  (next_promise w,
   {| heap := heap w; state := state w; listeners := listeners w; env := env w;
      calls := calls w; timers := timers w ++ [callback (next_promise w)];
      next_promise := S (next_promise w) |}).

(** The updater of the timer callback of [fetchTodos]. *)
Definition fetchTodos_callback (p : promise) : Recipe unit :=
  r1 <- Math_random ;;
  r2 <- Math_random ;;
  r3 <- Math_random ;;
  assign_todos [ {| id := Some r1; title := "Hello..."; done := false |};
                 {| id := Some r2; title := "World..."; done := false |};
                 {| id := Some r3; title := "Hello World..."; done := true |} ] ;;
  assign_loading false ;;
  resolve p.

Definition fetchTodos (w : World) : promise * World :=
  new_promise_setTimeout FetchCallback (update (assign_loading true) w).

(** The updater of the timer callback of [saveTodo].  [todo] is the nested
    draft [draft.todo]: after [todo.id = Math.random()] it is read again to
    get the object that is pushed. *)
Definition saveTodo_callback (p : promise) : Recipe unit :=
  todo0 <- get_todo ;;
  (if negb (truthy_id (id todo0))
   then
     r <- Math_random ;;
     assign_todo_id r ;;
     todo1 <- get_todo ;;
     push_todos todo1
   else
     items <- get_todos ;;
     assign_todos
       (map (fun item => if strict_eq (id item) (id todo0) then todo0 else item)
            items)) ;;
  assign_todo (Other empty_todo) ;;
  assign_saving false ;;
  resolve p.

Definition saveTodo (w : World) : promise * World :=
  new_promise_setTimeout SaveCallback (update (assign_saving true) w).

(** The updater of [updateTodo(todo)]. *)
Definition updateTodo_updater (partial : Partial) : Recipe unit :=
  todo0 <- get_todo ;;
  let current := spread todo0 partial in
  assign_todo (Other current) ;;
  if truthy_id (id current)
  then
    items <- get_todos ;;
    assign_todos
      (map (fun item => if strict_eq (id item) (id current) then current else item)
           items)
  else ret tt.

Definition updateTodo (partial : Partial) (w : World) : World :=
  update (updateTodo_updater partial) w.

(** The updater of the timer callback of [removeTodo(todo)]; the promise's
    [resolve] is in scope and not called. *)
Definition removeTodo_callback (t : Todo) (p : promise) : Recipe unit :=
  items <- get_todos ;;
  assign_todos (filter (fun item => negb (strict_eq (id item) (id t))) items) ;;
  assign_todo (Other empty_todo) ;;
  assign_saving false.

Definition removeTodo (t : Todo) (w : World) : promise * World :=
  new_promise_setTimeout (RemoveCallback t) (update (assign_saving true) w).

Definition selectTodo (t : ObjArg) (w : World) : World :=
  update (assign_todo t) w.

(* ================================================================= *)
(** ** The event loop *)

Definition run_task (t : Task) (w : World) : World :=
  match t with
  | FetchCallback p => update (fetchTodos_callback p) w
  | SaveCallback p => update (saveTodo_callback p) w
  | RemoveCallback t p => update (removeTodo_callback t p) w
  end.

(** The earliest pending timer fires. *)
Definition tick (w : World) : World :=
  match timers w with
  | [] => w
  | t :: ts =>
      run_task t {| heap := heap w; state := state w; listeners := listeners w;
                    env := env w; calls := calls w; timers := ts;
                    next_promise := next_promise w |}
  end.

(** What can happen to the store: a call of one of its clients, or a timer. *)
Inductive Event :=
  | EFetch
  | ESave
  | EUpdate (partial : Partial)
  | ERemove (t : Todo)
  | ESelect (t : ObjArg)
  | ESubscribe (l : listener)
  | EUnsubscribe (l : listener)
  | ETick.

Definition step (ev : Event) (w : World) : World :=
  match ev with
  | EFetch => snd (fetchTodos w)
  | ESave => snd (saveTodo w)
  | EUpdate partial => updateTodo partial w
  | ERemove t => snd (removeTodo t w)
  | ESelect t => selectTodo t w
  | ESubscribe l => snd (subscribe l w)
  | EUnsubscribe l => fst (subscribe l w) w
  | ETick => tick w
  end.

Definition run (evs : list Event) (w : World) : World :=
  fold_left (fun w' ev => step ev w') evs w.

(** A sequence of [store.update] calls. *)
Definition updates (us : list (Recipe unit)) (w : World) : World :=
  fold_left (fun w' u => update u w') us w.

(** The snapshot [produce] hands back to [update]. *)
Definition produced (u : Recipe unit) (w : World) : loc :=
  fst (fst (produce (heap w) (state w) u (env w))).

(** The listeners invoked between [w0] and [w], with the snapshot each got. *)
Definition invoked_since (w0 w : World) : list (listener * loc) :=
  skipn (List.length (calls w0)) (calls w).

(** The draft as the updater [u] leaves it when [update u] runs in [w]. *)
Definition drafted (u : Recipe unit) (w : World) : Draft :=
  snd (fst (u (createDraft (current w)) (env w))).

(** The held snapshot is an allocated object. *)
Definition allocated_state (w : World) : Prop := state w < next_loc (heap w).

(** The public interface of the store, for arbitrary clients. *)
Inductive StoreCall :=
  | CallUpdate (u : Recipe unit)
  | CallSubscribe (l : listener)
  | CallUnsubscribe (l : listener).

Definition store_call (c : StoreCall) (w : World) : World :=
  match c with
  | CallUpdate u => update u w
  | CallSubscribe l => snd (subscribe l w)
  | CallUnsubscribe l => fst (subscribe l w) w
  end.

Definition store_calls (cs : list StoreCall) (w : World) : World :=
  fold_left (fun w' c => store_call c w') cs w.

Definition is_subscribe_of (l : listener) (c : StoreCall) : bool :=
  match c with
  | CallSubscribe l' => Nat.eqb l' l
  | _ => false
  end.

(** Every update of the sequence [us], run from [w], gets back from
    [produce] the snapshot the store already holds. *)
Fixpoint all_unchanged (us : list (Recipe unit)) (w : World) : Prop :=
  match us with
  | [] => True
  | u :: us' => produced u w = state w /\ all_unchanged us' (update u w)
  end.

(** The entries of [todos] whose id is [===] to the id of the in-edit todo. *)
Definition sharing_id (s : AppState) : list Todo :=
  filter (fun item => strict_eq (id item) (id (todo s))) (todos s).

(** [n] timers fire in a row. *)
Definition ticks (n : nat) (w : World) : World := Nat.iter n tick w.

(** The promise whose executor scheduled the task. *)
Definition task_promise (t : Task) : promise :=
  match t with
  | FetchCallback p => p
  | SaveCallback p => p
  | RemoveCallback _ p => p
  end.

(** Promises are created in sequence: those resolved and those of pending
    timers were created earlier. *)
Definition promises_created (w : World) : Prop :=
  (forall q, In q (resolved (env w)) -> q < next_promise w)
  /\ (forall t, In t (timers w) -> task_promise t < next_promise w).

(** The promise [p] exists, is pending, and no pending timer calls its
    [resolve]. *)
Definition stays_pending (p : promise) (w : World) : Prop :=
  p < next_promise w
  /\ ~ In p (resolved (env w))
  /\ (forall t, In t (timers w) ->
                t <> FetchCallback p /\ t <> SaveCallback p).

(** [Math.random()] never returns the same value twice. *)
Definition no_collision (r : nat -> number) : Prop :=
  forall i j : nat, r i = r j -> i = j.

(** The ids of [todos] are draws of [Math.random()] made at pairwise
    different calls. *)
Definition ids_are_distinct_draws (r : nat -> number) (w : World) : Prop :=
  rng (env w) = r
  /\ exists ks : list nat,
       map id (todos (current w)) = map (fun k => Some (r k)) ks
       /\ NoDup ks
       /\ Forall (fun k => k < cursor (env w)) ks.

(** ** Concrete runs *)

(** [Math.random()] returning 0, 2^-1074, 2 * 2^-1074, ... *)
Definition random_from_zero : nat -> number := fun n => Z.of_nat n.

(** [Math.random()] returning the same value at every call. *)
Definition random_stuck : nat -> number := fun _ => 1%Z.

(** [Math.random()] returning pairwise different non-zero values. *)
Definition random_distinct : nat -> number := fun n => (Z.of_nat n + 1)%Z.

Definition first_seed (r : nat -> number) : Todo :=
  {| id := Some (r 0); title := "Hello..."; done := false |}.

(** The list has been fetched and its first item clicked. *)
Definition fetched_and_selected (r : nat -> number) : World :=
  run [EFetch; ETick; ESelect (Other (first_seed r))] (store r).

(** [{ done: true }] *)
Definition done_true : Partial :=
  {| p_id := None; p_title := None; p_done := Some true |}.

(** [{ title: 'Milk' }] *)
Definition title_milk : Partial :=
  {| p_id := None; p_title := Some "Milk"%string; p_done := None |}.

(* ================================================================= *)
(** ** Components *)

(** The props the selector of [TodoList] computes from the state. *)
Record TodoListProps := mkTodoListProps {
  props_todos : list Todo;
  props_loading : bool;
  completed : nat
}.

(** [state => ({ todos: state.todos, loading: state.loading,
                 completed: state.todos.filter(item => item.done).length })] *)
Definition TodoList_selector (s : AppState) : TodoListProps :=
  {| props_todos := todos s;
     props_loading := loading s;
     completed := List.length (filter (fun item => done item) (todos s)) |}.

(** The content of the object a caller passes. *)
Definition arg_content (a : ObjArg) (w : World) : Todo :=
  match a with
  | Held => todo (current w)
  | Other v => v
  end.

(** [TodoItem]: [onClick={e => selectTodo(todo)}] *)
Definition TodoItem_onClick (item : ObjArg) (w : World) : World :=
  selectTodo item w.

(** [TodoItem]: [onChange={e => updateTodo({ done: !todo.done })}] *)
Definition TodoItem_onChange (item : ObjArg) (w : World) : World :=
  updateTodo {| p_id := None; p_title := None;
                p_done := Some (negb (done (arg_content item w))) |} w.

(** [TodoEditor]: [onChange={e => updateTodo({ title: e.target.value })}] *)
Definition TodoEditor_onChange (value : string) (w : World) : World :=
  updateTodo {| p_id := None; p_title := Some value; p_done := None |} w.

(** [TodoEditor.onSubmit]: [saveTodo()]; what is chained on the promise
    only touches the input element. *)
Definition TodoEditor_onSubmit (w : World) : promise * World := saveTodo w.

(** A task whose callback assigns [draft.saving = false]. *)
Definition clears_saving (t : Task) : bool :=
  match t with
  | FetchCallback _ => false
  | SaveCallback _ => true
  | RemoveCallback _ _ => true
  end.

(** [TodoEditor], the Delete button:
    [{todo.id && (<button disabled={saving} onClick={e => removeTodo(todo)}>)}],
    where [todo] and [saving] are those of the rendered state.  A click runs
    the handler only when the button is rendered ([todo.id] is truthy) and
    enabled ([saving] is false); [None] says there was nothing to click. *)
Definition TodoEditor_onDelete (w : World) : option (promise * World) :=
  if truthy_id (id (todo (current w))) && negb (saving (current w))
  then Some (removeTodo (todo (current w)) w)
  else None.

(** [TodoContainer.componentWillMount]: the function returned by
    [store.subscribe] is kept in [this.unsubscribe]. *)
Definition componentWillMount (l : listener) (w : World)
  : (World -> World) * World :=
  subscribe l w.

(** [TodoContainer.componentDidMount]: the promise is dropped. *)
Definition componentDidMount (w : World) : World := snd (fetchTodos w).

(** [TodoContainer.componentWillUnmount] *)
Definition componentWillUnmount (unsubscribe : World -> World) (w : World)
  : World :=
  unsubscribe w.

(** The snapshot a listener was last invoked with, if it ever was. *)
Fixpoint last_delivered (l : listener) (log : list (listener * loc))
  : option loc :=
  match log with
  | [] => None
  | (fn, s) :: log' =>
      match last_delivered l log' with
      | Some s' => Some s'
      | None => if Nat.eqb fn l then Some s else None
      end
  end.

Definition is_unsubscribe_of (l : listener) (c : StoreCall) : bool :=
  match c with
  | CallUnsubscribe l' => Nat.eqb l' l
  | _ => false
  end.

(* ================================================================= *)
(** * Properties *)

(** ** The store *)

Section StoreFacts.

Lemma notify_fold (ls : list listener) (w : World) :
  fold_left (fun w' fn => call fn w') ls w =
  {| heap := heap w; state := state w; listeners := listeners w;
     env := env w;
     calls := calls w ++ map (fun fn => (fn, state w)) ls;
     timers := timers w; next_promise := next_promise w |}.
Proof.
  revert w; induction ls as [|fn ls IH]; intros w; simpl.
  - rewrite app_nil_r. now destruct w.
  - rewrite IH. unfold call; simpl. now rewrite <- app_assoc.
Qed.

Lemma notify_eq (w : World) :
  notify w =
  {| heap := heap w; state := state w; listeners := listeners w;
     env := env w;
     calls := calls w ++ map (fun fn => (fn, state w)) (listeners w);
     timers := timers w; next_promise := next_promise w |}.
Proof. apply notify_fold. Qed.

Variable u : Recipe unit.
Variable w : World.

(** What [update] does, by cases on the draft's flag and on whether the
    new object's address differs from the held one. *)
Lemma update_eq :
  update u w =
  let e := snd (u (createDraft (current w)) (env w)) in
  let d := drafted u w in
  if modified d
  then
    let h := snd (alloc (heap w) (copy d)) in
    if Nat.eqb (next_loc (heap w)) (state w)
    then {| heap := h; state := state w; listeners := listeners w; env := e;
            calls := calls w; timers := timers w;
            next_promise := next_promise w |}
    else {| heap := h; state := next_loc (heap w); listeners := listeners w;
            env := e;
            calls := calls w ++
                     map (fun fn => (fn, next_loc (heap w))) (listeners w);
            timers := timers w; next_promise := next_promise w |}
  else {| heap := heap w; state := state w; listeners := listeners w;
          env := e; calls := calls w; timers := timers w;
          next_promise := next_promise w |}.
Proof.
  unfold update, produce, drafted, current.
  destruct (u (createDraft (deref (heap w) (state w))) (env w))
    as [[[] d] e]; simpl.
  destruct (modified d); simpl.
  - destruct (Nat.eqb (next_loc (heap w)) (state w)); simpl; [reflexivity|].
    now rewrite notify_eq.
  - now rewrite Nat.eqb_refl.
Qed.

Lemma produced_eq :
  produced u w =
  if modified (drafted u w) then next_loc (heap w) else state w.
Proof.
  unfold produced, produce, drafted, current.
  destruct (u (createDraft (deref (heap w) (state w))) (env w))
    as [[[] d] e]; simpl.
  now destruct (modified d).
Qed.

Lemma update_timers : timers (update u w) = timers w.
Proof.
  rewrite update_eq; cbv zeta.
  destruct (modified _); [destruct (Nat.eqb _ _)|]; reflexivity.
Qed.

Lemma update_next_promise : next_promise (update u w) = next_promise w.
Proof.
  rewrite update_eq; cbv zeta.
  destruct (modified _); [destruct (Nat.eqb _ _)|]; reflexivity.
Qed.

Lemma update_listeners : listeners (update u w) = listeners w.
Proof.
  rewrite update_eq; cbv zeta.
  destruct (modified _); [destruct (Nat.eqb _ _)|]; reflexivity.
Qed.

Lemma update_env :
  env (update u w) = snd (u (createDraft (current w)) (env w)).
Proof.
  rewrite update_eq; cbv zeta.
  destruct (modified _); [destruct (Nat.eqb _ _)|]; reflexivity.
Qed.

(** The snapshot held after an update is the finalized copy if the draft
    was modified, and the one held before otherwise. *)
Lemma update_current :
  current (update u w) =
  if modified (drafted u w) then copy (drafted u w) else current w.
Proof.
  rewrite update_eq; cbv zeta. unfold current.
  destruct (modified _); [|reflexivity].
  destruct (Nat.eqb (next_loc (heap w)) (state w)) eqn:E; unfold deref; simpl.
  - apply Nat.eqb_eq in E. rewrite <- E. now rewrite Nat.eqb_refl.
  - now rewrite Nat.eqb_refl.
Qed.

Lemma update_calls_extend :
  exists ls, calls (update u w) =
             calls w ++ map (fun fn => (fn, state (update u w))) ls
             /\ incl ls (listeners w).
Proof.
  rewrite update_eq; cbv zeta.
  destruct (modified _); [destruct (Nat.eqb _ _)|]; simpl.
  - exists []. simpl. now rewrite app_nil_r.
  - exists (listeners w). split; [reflexivity | apply incl_refl].
  - exists []. simpl. now rewrite app_nil_r.
Qed.

End StoreFacts.

(** The guard of [update]: nothing is assigned and nobody notified when
    [produce] hands back the held snapshot. *)
Lemma update_unchanged (u : Recipe unit) (w : World) :
  produced u w = state w ->
  calls (update u w) = calls w /\ state (update u w) = state w.
Proof.
  intros H. rewrite produced_eq in H.
  rewrite update_eq; cbv zeta.
  destruct (modified (drafted u w)).
  - rewrite H, Nat.eqb_refl. now simpl.
  - now simpl.
Qed.

(** [C1] After any sequence [us] of updates, an update whose produced
    snapshot is the very snapshot the store holds invokes no listener: the
    log of invocations and the held snapshot are what they were. *)
Theorem unchanged_update_invokes_no_listener :
  forall (us : list (Recipe unit)) (u : Recipe unit) (w : World),
    produced u (updates us w) = state (updates us w) ->
    calls (update u (updates us w)) = calls (updates us w)
    /\ invoked_since (updates us w) (update u (updates us w)) = []
    /\ state (update u (updates us w)) = state (updates us w).
Proof.
  intros us u w H.
  destruct (update_unchanged u (updates us w) H) as [Ec Es].
  repeat split; trivial.
  unfold invoked_since. rewrite Ec. apply skipn_all.
Qed.

Lemma unchanged_update_invokes_no_listener_witness :
  let w := snd (subscribe 5 (store random_distinct)) in
  calls (update (assign_loading true) (updates [assign_loading true] w))
  = calls (updates [assign_loading true] w)
  /\ calls (updates [assign_loading true] w) = [(5, 1)].
Proof.
  split.
  - apply (unchanged_update_invokes_no_listener
             [assign_loading true] (assign_loading true)
             (snd (subscribe 5 (store random_distinct)))).
    vm_compute. reflexivity.
  - vm_compute. reflexivity.
Defined.

(** A whole sequence of updates that change nothing leaves the log alone. *)
Lemma unchanged_updates_invoke_no_listener (us : list (Recipe unit)) :
  forall w, all_unchanged us w ->
            calls (updates us w) = calls w /\ state (updates us w) = state w.
Proof.
  induction us as [|u us IH]; intros w H; simpl in *.
  - now split.
  - destruct H as [H1 H2].
    destruct (update_unchanged u w H1) as (Ec & Es).
    destruct (IH _ H2) as [Ec' Es'].
    unfold updates in *. rewrite Ec', Es'. now split.
Qed.

(** [C2] An update whose produced snapshot is not the held one makes it the
    store's state, holding what the updater left in the draft, and invokes
    each listener of the set once, in the set's order, with that snapshot. *)
Theorem changed_update_notifies_in_order :
  forall (u : Recipe unit) (w : World),
    produced u w <> state w ->
    state (update u w) = produced u w
    /\ current (update u w) = copy (drafted u w)
    /\ calls (update u w) =
       calls w ++ map (fun fn => (fn, produced u w)) (listeners w)
    /\ listeners (update u w) = listeners w.
Proof.
  intros u w H. rewrite update_current, update_listeners.
  rewrite produced_eq in *. rewrite update_eq; cbv zeta.
  destruct (modified (drafted u w)); [|congruence].
  destruct (Nat.eqb (next_loc (heap w)) (state w)) eqn:E.
  - apply Nat.eqb_eq in E. congruence.
  - now simpl.
Qed.

Lemma changed_update_notifies_in_order_witness :
  let w := snd (subscribe 7 (snd (subscribe 5 (store random_distinct)))) in
  state (update (assign_saving true) w) = 1
  /\ calls (update (assign_saving true) w) = [(5, 1); (7, 1)].
Proof.
  pose proof (changed_update_notifies_in_order (assign_saving true)
                (snd (subscribe 7 (snd (subscribe 5 (store random_distinct))))))
    as H.
  destruct H as (Hs & _ & Hc & _).
  - vm_compute. discriminate.
  - split; [exact Hs | exact Hc].
Defined.

(** The set keeps subscription order: a new listener goes last, and
    subscribing a listener again does not move it. *)
Lemma subscribe_order (l : listener) (w : World) :
  listeners (snd (subscribe l w)) =
  if in_dec Nat.eq_dec l (listeners w) then listeners w
  else listeners w ++ [l].
Proof.
  unfold subscribe, set_add; simpl.
  destruct (existsb (Nat.eqb l) (listeners w)) eqn:E;
    destruct (in_dec Nat.eq_dec l (listeners w)) as [i|n]; trivial.
  - exfalso. apply n. apply existsb_exists in E. destruct E as (x & Hx & Hl).
    apply Nat.eqb_eq in Hl. now subst.
  - exfalso. assert (existsb (Nat.eqb l) (listeners w) = true); [|congruence].
    apply existsb_exists. exists l. split; trivial. apply Nat.eqb_refl.
Qed.

(** ** Snapshots are never written to *)

Lemma alloc_frame (h : Heap) (s : AppState) (l : loc) :
  l < next_loc h -> deref (snd (alloc h s)) l = deref h l.
Proof.
  intros H. unfold deref, alloc; simpl.
  destruct (Nat.eqb l (next_loc h)) eqn:E; trivial.
  apply Nat.eqb_eq in E. lia.
Qed.

Lemma update_frame (u : Recipe unit) (w : World) (l : loc) :
  l < next_loc (heap w) -> deref (heap (update u w)) l = deref (heap w) l.
Proof.
  intros H. rewrite update_eq; cbv zeta.
  destruct (modified _); [destruct (Nat.eqb _ _)|]; simpl; trivial;
    now apply alloc_frame.
Qed.

Lemma update_allocated (u : Recipe unit) (w : World) :
  allocated_state w -> allocated_state (update u w).
Proof.
  unfold allocated_state. rewrite update_eq; cbv zeta.
  destruct (modified _); [destruct (Nat.eqb _ _)|]; simpl; lia.
Qed.

(** [C3] [update] writes to no object that existed before it: the snapshot
    held before the update, like every allocated object, has the content it
    had; and when the updater leaves the draft unmodified, nothing is
    allocated and the store keeps the snapshot it held. *)
Theorem update_leaves_prior_snapshot_untouched :
  forall (u : Recipe unit) (w : World),
    allocated_state w ->
    deref (heap (update u w)) (state w) = current w
    /\ (forall l, l < next_loc (heap w) ->
                  deref (heap (update u w)) l = deref (heap w) l)
    /\ (modified (drafted u w) = false ->
        heap (update u w) = heap w /\ state (update u w) = state w).
Proof.
  intros u w Hw. split; [|split].
  - now apply update_frame.
  - intros l Hl. now apply update_frame.
  - intros Hm. rewrite update_eq; cbv zeta. rewrite Hm. now simpl.
Qed.

Lemma update_leaves_prior_snapshot_untouched_witness :
  let w := update (assign_saving true) (store random_distinct) in
  deref (heap (update (assign_loading true) w)) 1 = with_saving true initialState
  /\ deref (heap (update (assign_loading true) w)) 0 = initialState
  /\ state (update (assign_saving true) w) = 1.
Proof.
  pose proof (update_leaves_prior_snapshot_untouched (assign_loading true)
                (update (assign_saving true) (store random_distinct))) as H1.
  pose proof (update_leaves_prior_snapshot_untouched (assign_saving true)
                (update (assign_saving true) (store random_distinct))) as H2.
  destruct H1 as (Ha & Hb & _); [vm_compute; lia|].
  destruct H2 as (_ & _ & Hc); [vm_compute; lia|].
  split; [exact Ha|split].
  - rewrite (Hb 0); [reflexivity | vm_compute; lia].
  - apply Hc. reflexivity.
Defined.

(** In every store reached from the initial one the held snapshot is an
    allocated object. *)
Lemma run_allocated_state (r : nat -> number) (evs : list Event) :
  allocated_state (run evs (store r)).
Proof.
  assert (H0 : allocated_state (store r)) by (unfold allocated_state; simpl; lia).
  revert H0. generalize (store r) as w.
  induction evs as [|ev evs IH]; intros w H; simpl; trivial.
  apply IH. destruct ev; simpl; unfold updateTodo, selectTodo; trivial;
    try (now apply update_allocated);
    try (now apply (update_allocated (assign_loading true)));
    try (now apply (update_allocated (assign_saving true))).
  unfold tick. destruct (timers w) as [|[q|q|t q] ts]; trivial;
    now apply update_allocated.
Qed.

(** ** Unsubscribing *)

Lemma set_delete_not_in (l : listener) (ls : list listener) :
  ~ In l (set_delete l ls).
Proof.
  unfold set_delete. intros H. apply filter_In in H. destruct H as [_ H].
  now rewrite Nat.eqb_refl in H.
Qed.

Lemma set_delete_incl (l : listener) (ls : list listener) :
  incl (set_delete l ls) ls.
Proof. intros x H. apply filter_In in H. tauto. Qed.

Lemma set_add_in (l x : listener) (ls : list listener) :
  In x (set_add l ls) -> x = l \/ In x ls.
Proof.
  unfold set_add. destruct (existsb _ _); [tauto|].
  intros H. apply in_app_or in H. simpl in H. intuition.
Qed.

(** While [l] is not in the set, a call of the store that is not
    [subscribe(l)] keeps it out and does not invoke it. *)
Lemma store_call_absent (l : listener) (c : StoreCall) (w : World) :
  ~ In l (listeners w) ->
  is_subscribe_of l c = false ->
  ~ In l (listeners (store_call c w))
  /\ exists rest, calls (store_call c w) = calls w ++ rest
                  /\ Forall (fun i => fst i <> l) rest.
Proof.
  intros Hl Hc. destruct c as [u|l'|l']; simpl in *.
  - rewrite update_listeners. split; trivial.
    destruct (update_calls_extend u w) as (ls & E & Hi).
    eexists; split; [exact E|].
    apply Forall_forall. intros i Hin. apply in_map_iff in Hin.
    destruct Hin as (fn & <- & Hfn). simpl. intros ->. apply Hl. now apply Hi.
  - split.
    + intros H. apply set_add_in in H. destruct H as [->|H]; [|tauto].
      now rewrite Nat.eqb_refl in Hc.
    + exists []. rewrite app_nil_r. split; [reflexivity|constructor].
  - split.
    + intros H. apply Hl. eapply set_delete_incl; eauto.
    + exists []. rewrite app_nil_r. split; [reflexivity|constructor].
Qed.

Lemma store_calls_absent (l : listener) (cs : list StoreCall) :
  forall w,
    ~ In l (listeners w) ->
    forallb (fun c => negb (is_subscribe_of l c)) cs = true ->
    exists rest, calls (store_calls cs w) = calls w ++ rest
                 /\ Forall (fun i => fst i <> l) rest.
Proof.
  induction cs as [|c cs IH]; intros w Hl Hcs; simpl in *.
  - exists []. rewrite app_nil_r. split; [reflexivity|constructor].
  - apply andb_true_iff in Hcs. destruct Hcs as [Hc Hcs].
    apply negb_true_iff in Hc.
    destruct (store_call_absent l c w Hl Hc) as (Hl' & r1 & E1 & F1).
    destruct (IH _ Hl' Hcs) as (r2 & E2 & F2).
    exists (r1 ++ r2). unfold store_calls in *. rewrite E2, E1, app_assoc.
    split; [reflexivity|]. apply Forall_app. now split.
Qed.

(** [C10] Once the function returned by [subscribe(l)] has been called, in
    whatever state the store is by then, no later call of the store invokes
    [l], whatever the updaters and the other subscriptions are, as long as
    [l] is not passed to [subscribe] again. *)
Theorem unsubscribed_listener_not_invoked :
  forall (l : listener) (w w' : World) (cs : list StoreCall),
    forallb (fun c => negb (is_subscribe_of l c)) cs = true ->
    let unsubscribe := fst (subscribe l w) in
    calls (store_calls cs (unsubscribe w')) =
      calls (unsubscribe w')
      ++ invoked_since (unsubscribe w') (store_calls cs (unsubscribe w'))
    /\ Forall (fun i => fst i <> l)
              (invoked_since (unsubscribe w') (store_calls cs (unsubscribe w'))).
Proof.
  intros l w w' cs Hcs unsubscribe.
  destruct (store_calls_absent l cs (unsubscribe w')) as (rest & E & F); trivial.
  { unfold unsubscribe; simpl. apply set_delete_not_in. }
  unfold invoked_since. rewrite E.
  rewrite skipn_app, skipn_all, Nat.sub_diag. simpl. now split.
Qed.

Lemma unsubscribed_listener_not_invoked_witness :
  let w := store random_distinct in
  let w1 := snd (subscribe 7 (snd (subscribe 5 w))) in
  let w2 := fst (subscribe 5 w) (update (assign_saving true) w1) in
  calls w2 = [(5, 1); (7, 1)]
  /\ calls (store_calls [CallUpdate (assign_loading true); CallSubscribe 9;
                         CallUpdate (assign_saving false)] w2)
     = calls w2 ++ [(7, 2); (7, 3); (9, 3)].
Proof.
  split; [vm_compute; reflexivity|].
  pose proof (unsubscribed_listener_not_invoked 5 (store random_distinct)
                (update (assign_saving true)
                   (snd (subscribe 7 (snd (subscribe 5 (store random_distinct))))))
                [CallUpdate (assign_loading true); CallSubscribe 9;
                 CallUpdate (assign_saving false)]) as H.
  destruct H as [H _]; [reflexivity|].
  cbv zeta in H |- *. rewrite H. vm_compute. reflexivity.
Defined.

(** ** What each updater does to the held snapshot *)

Ltac run_recipe :=
  rewrite ?update_current, ?update_env;
  unfold drafted, fetchTodos_callback, saveTodo_callback, removeTodo_callback,
    updateTodo_updater, bind, ret, assign_saving, assign_loading, assign_todo,
    assign_todos, assign_todo_id, push_todos, get_todo, get_todos, Math_random,
    resolve, write, createDraft;
  simpl.

Lemma strict_eq_true (a b : option number) : strict_eq a b = true -> a = b.
Proof.
  destruct a, b; simpl; try discriminate; trivial.
  intros H. apply Z.eqb_eq in H. now subst.
Qed.

Lemma with_saving_same (s : AppState) : with_saving (saving s) s = s.
Proof. now destruct s. Qed.

Lemma with_loading_same (s : AppState) : with_loading (loading s) s = s.
Proof. now destruct s. Qed.

Lemma assign_saving_current (v : bool) (w : World) :
  current (update (assign_saving v) w) = with_saving v (current w).
Proof.
  run_recipe. destruct (Bool.eqb (saving (current w)) v) eqn:E; simpl; trivial.
  apply eqb_prop in E. subst v. now rewrite with_saving_same.
Qed.

Lemma assign_loading_current (v : bool) (w : World) :
  current (update (assign_loading v) w) = with_loading v (current w).
Proof.
  run_recipe. destruct (Bool.eqb (loading (current w)) v) eqn:E; simpl; trivial.
  apply eqb_prop in E. subst v. now rewrite with_loading_same.
Qed.

Lemma assign_saving_env (v : bool) (w : World) :
  env (update (assign_saving v) w) = env w.
Proof. run_recipe. now destruct (Bool.eqb (saving (current w)) v). Qed.

Lemma assign_loading_env (v : bool) (w : World) :
  env (update (assign_loading v) w) = env w.
Proof. run_recipe. now destruct (Bool.eqb (loading (current w)) v). Qed.

Lemma selectTodo_current (t : ObjArg) (w : World) :
  current (selectTodo t w) =
  match t with
  | Held => current w
  | Other v => with_todo v (current w)
  end.
Proof. unfold selectTodo. run_recipe. now destruct t. Qed.

Lemma selectTodo_env (t : ObjArg) (w : World) : env (selectTodo t w) = env w.
Proof. unfold selectTodo. run_recipe. now destruct t. Qed.

(** The three seed records, for the draws [r1], [r2], [r3]. *)
Lemma fetchTodos_callback_current (p : promise) (w : World) :
  current (update (fetchTodos_callback p) w) =
  {| saving := saving (current w);
     loading := false;
     todo := todo (current w);
     todos :=
       [ {| id := Some (rng (env w) (cursor (env w)));
            title := "Hello..."; done := false |};
         {| id := Some (rng (env w) (S (cursor (env w))));
            title := "World..."; done := false |};
         {| id := Some (rng (env w) (S (S (cursor (env w)))));
            title := "Hello World..."; done := true |} ] |}.
Proof. run_recipe. reflexivity. Qed.

Lemma fetchTodos_callback_env (p : promise) (w : World) :
  env (update (fetchTodos_callback p) w) =
  {| rng := rng (env w); cursor := S (S (S (cursor (env w))));
     resolved := p :: resolved (env w) |}.
Proof. run_recipe. reflexivity. Qed.

Lemma saveTodo_callback_current (p : promise) (w : World) :
  current (update (saveTodo_callback p) w) =
  let s := current w in
  {| saving := false;
     loading := loading s;
     todo := empty_todo;
     todos :=
       if truthy_id (id (todo s))
       then map (fun item => if strict_eq (id item) (id (todo s))
                             then todo s else item) (todos s)
       else todos s ++ [ {| id := Some (rng (env w) (cursor (env w)));
                            title := title (todo s);
                            done := done (todo s) |} ] |}.
Proof.
  run_recipe. destruct (truthy_id (id (todo (current w)))); simpl; trivial.
  destruct (strict_eq _ _) eqn:E; simpl; trivial.
  apply strict_eq_true in E.
  destruct (current w) as [sv ld [i t d] ts]; simpl in *. now subst.
Qed.

Lemma saveTodo_callback_env (p : promise) (w : World) :
  env (update (saveTodo_callback p) w) =
  {| rng := rng (env w);
     cursor := if truthy_id (id (todo (current w)))
               then cursor (env w) else S (cursor (env w));
     resolved := p :: resolved (env w) |}.
Proof.
  run_recipe. destruct (truthy_id (id (todo (current w)))); simpl; trivial.
  now destruct (strict_eq _ _).
Qed.

Lemma removeTodo_callback_current (t : Todo) (p : promise) (w : World) :
  current (update (removeTodo_callback t p) w) =
  {| saving := false;
     loading := loading (current w);
     todo := empty_todo;
     todos := filter (fun item => negb (strict_eq (id item) (id t)))
                     (todos (current w)) |}.
Proof. run_recipe. reflexivity. Qed.

Lemma removeTodo_callback_env (t : Todo) (p : promise) (w : World) :
  env (update (removeTodo_callback t p) w) = env w.
Proof. run_recipe. reflexivity. Qed.

Lemma updateTodo_current (partial : Partial) (w : World) :
  current (updateTodo partial w) =
  let s := current w in
  let merged := spread (todo s) partial in
  {| saving := saving s;
     loading := loading s;
     todo := merged;
     todos :=
       if truthy_id (id merged)
       then map (fun item => if strict_eq (id item) (id merged)
                             then merged else item) (todos s)
       else todos s |}.
Proof.
  unfold updateTodo. run_recipe.
  now destruct (truthy_id _).
Qed.

Lemma updateTodo_env (partial : Partial) (w : World) :
  env (updateTodo partial w) = env w.
Proof.
  unfold updateTodo. run_recipe.
  now destruct (truthy_id _).
Qed.

(** ** Timers *)

(** The held snapshot depends on the heap and on [store.state] only. *)
Lemma current_mkWorld (w : World) ls e c t n :
  current {| heap := heap w; state := state w; listeners := ls; env := e;
             calls := c; timers := t; next_promise := n |} = current w.
Proof. reflexivity. Qed.

Lemma tick_timers (w : World) : timers (tick w) = tl (timers w).
Proof.
  unfold tick. destruct (timers w) as [|t ts] eqn:E; simpl.
  - now rewrite E.
  - destruct t; simpl; now rewrite update_timers.
Qed.

Lemma tl_skipn {A} (n : nat) :
  forall l : list A, tl (skipn n l) = skipn (S n) l.
Proof.
  induction n as [|n IH]; intros [|x l]; trivial.
  change (tl (skipn n l) = skipn (S n) l). apply IH.
Qed.

Lemma ticks_timers (n : nat) (w : World) :
  timers (ticks n w) = skipn n (timers w).
Proof.
  induction n as [|n IH]; [reflexivity|].
  change (ticks (S n) w) with (tick (ticks n w)).
  now rewrite tick_timers, IH, tl_skipn.
Qed.

(** The timer scheduled by an action fires once those pending before it
    have fired. *)
Lemma scheduled_last (callback : promise -> Task) (w : World) :
  timers (ticks (List.length (timers w))
                (snd (new_promise_setTimeout callback w)))
  = [callback (next_promise w)].
Proof.
  rewrite ticks_timers. simpl.
  rewrite skipn_app, skipn_all, Nat.sub_diag. reflexivity.
Qed.

(** [C4] [fetchTodos()] first sets [loading] to true.  When its timer fires
    (after the timers that were pending before it), its promise is resolved
    and the held state has [loading] false and, as [todos], exactly the three
    seed records: their ids are the three results of [Math.random()], their
    titles and flags are fixed. *)
Theorem fetchTodos_resolves_with_three_todos :
  forall w : World,
    let p := fst (fetchTodos w) in
    let w1 := snd (fetchTodos w) in
    let w' := ticks (List.length (timers w)) w1 in
    let w2 := tick w' in
    loading (current w1) = true
    /\ In p (resolved (env w2))
    /\ todos (current w2) =
       [ {| id := Some (rng (env w') (cursor (env w')));
            title := "Hello..."; done := false |};
         {| id := Some (rng (env w') (S (cursor (env w'))));
            title := "World..."; done := false |};
         {| id := Some (rng (env w') (S (S (cursor (env w')))));
            title := "Hello World..."; done := true |} ]
    /\ List.length (todos (current w2)) = 3
    /\ loading (current w2) = false.
Proof.
  intros w p w1 w' w2.
  assert (L : loading (current w1) = true).
  { unfold w1, fetchTodos. unfold current; simpl.
    change (loading (current (update (assign_loading true) w)) = true).
    now rewrite assign_loading_current. }
  assert (T : timers w' = [FetchCallback p]).
  { unfold w', w1, p, fetchTodos.
    rewrite <- (update_timers (assign_loading true) w).
    rewrite scheduled_last. reflexivity. }
  unfold w2, tick. rewrite T. simpl run_task.
  rewrite fetchTodos_callback_env, fetchTodos_callback_current. simpl.
  repeat split; trivial. now left.
Qed.

(** [C5] In a store with no timer pending whose in-edit [todo] has no id,
    when the timer of [saveTodo()] fires its promise is resolved, [todos] is
    the former [todos] followed by one entry with the draft's [title] and
    [done] (and a drawn id), [todo] is [{title: '', done: false}] and
    [saving] is false. *)
Theorem saveTodo_appends_fresh_todo :
  forall w : World,
    timers w = [] ->
    id (todo (current w)) = None ->
    let p := fst (saveTodo w) in
    let w2 := tick (snd (saveTodo w)) in
    In p (resolved (env w2))
    /\ todos (current w2) =
       todos (current w) ++
       [ {| id := Some (rng (env w) (cursor (env w)));
            title := title (todo (current w));
            done := done (todo (current w)) |} ]
    /\ List.length (todos (current w2)) = S (List.length (todos (current w)))
    /\ todo (current w2) = empty_todo
    /\ saving (current w2) = false.
Proof.
  intros w Ht Hid p w2.
  unfold w2, p, saveTodo, tick; simpl.
  rewrite update_timers, Ht. simpl.
  rewrite saveTodo_callback_env, saveTodo_callback_current. simpl.
  rewrite !current_mkWorld.
  rewrite assign_saving_current, assign_saving_env. simpl. rewrite Hid. simpl.
  repeat split; auto.
  rewrite length_app. simpl. lia.
Qed.

Lemma saveTodo_appends_fresh_todo_witness :
  let w := updateTodo title_milk (store random_distinct) in
  todos (current (tick (snd (saveTodo w)))) =
  [ {| id := Some 1%Z; title := "Milk"; done := false |} ]
  /\ todo (current (tick (snd (saveTodo w)))) = empty_todo.
Proof.
  pose proof (saveTodo_appends_fresh_todo
                (updateTodo title_milk (store random_distinct))) as H.
  destruct H as (_ & H1 & _ & H2 & _); [reflexivity | reflexivity |].
  split; [exact H1 | exact H2].
Defined.

(** With a fetch in flight the state has an in-edit todo without id, and
    [saveTodo()] resolves with four entries in [todos] where there were none:
    the fetch's callback, scheduled earlier, fires first. *)
Lemma saveTodo_during_fetch_grows_by_four :
  let w := snd (fetchTodos (store random_distinct)) in
  let p := fst (saveTodo w) in
  let w2 := ticks 2 (snd (saveTodo w)) in
  id (todo (current w)) = None
  /\ timers w = [FetchCallback 0]
  /\ ~ In p (resolved (env (ticks 1 (snd (saveTodo w)))))
  /\ In p (resolved (env w2))
  /\ List.length (todos (current w)) = 0
  /\ List.length (todos (current w2)) = 4
  /\ List.length (todos (current w2)) <> S (List.length (todos (current w))).
Proof.
  cbv zeta. repeat split; try (vm_compute; reflexivity).
  - vm_compute. intros [H|[]]. discriminate.
  - vm_compute. now left.
  - vm_compute. discriminate.
Qed.

(** ** Saving and editing an entry that has an id *)

(** When the in-edit todo has a truthy id, the callback of [saveTodo] keeps
    the length of [todos] and puts the in-edit todo at every position whose
    id is [===] to its id. *)
Lemma saveTodo_replaces_truthy_id (w : World) :
  timers w = [] ->
  truthy_id (id (todo (current w))) = true ->
  let w2 := tick (snd (saveTodo w)) in
  In (fst (saveTodo w)) (resolved (env w2))
  /\ todos (current w2) =
     map (fun item => if strict_eq (id item) (id (todo (current w)))
                      then todo (current w) else item) (todos (current w))
  /\ List.length (todos (current w2)) = List.length (todos (current w))
  /\ todo (current w2) = empty_todo
  /\ saving (current w2) = false.
Proof.
  intros Ht Hid w2.
  unfold w2, saveTodo, tick; simpl.
  rewrite update_timers, Ht. simpl.
  rewrite saveTodo_callback_env, saveTodo_callback_current. simpl.
  rewrite !current_mkWorld.
  rewrite assign_saving_current. simpl. rewrite Hid.
  repeat split; auto. now rewrite length_map.
Qed.

(** When the merged todo has a truthy id, [updateTodo] puts it at every
    position of [todos] whose id is [===] to its id, within the call. *)
Lemma updateTodo_propagates_truthy_id (partial : Partial) (w : World) :
  truthy_id (id (spread (todo (current w)) partial)) = true ->
  todo (current (updateTodo partial w)) = spread (todo (current w)) partial
  /\ todos (current (updateTodo partial w)) =
     map (fun item =>
            if strict_eq (id item) (id (spread (todo (current w)) partial))
            then spread (todo (current w)) partial else item)
         (todos (current w))
  /\ timers (updateTodo partial w) = timers w.
Proof.
  intros H. unfold updateTodo at 3. rewrite update_timers.
  rewrite updateTodo_current. cbv zeta. unfold todo at 1, todos at 1.
  rewrite H. now repeat split.
Qed.

(** [C6] The id 0, which [Math.random()] can return, is an id that
    [!todo.id] takes for an absent one.  With the first fetched item (id 0)
    in the editor and retitled, [saveTodo()] resolves with one entry more in
    [todos]: the entry with id 0 is as it was and the edited todo is
    appended under a new id. *)
Theorem saveTodo_id_zero_appends_instead_of_replacing :
  let w := updateTodo title_milk (fetched_and_selected random_from_zero) in
  let w2 := tick (snd (saveTodo w)) in
  in_random_range 0%Z
  /\ timers w = []
  /\ todo (current w) = {| id := Some 0%Z; title := "Milk"; done := false |}
  /\ map id (todos (current w)) = [Some 0%Z; Some 1%Z; Some 2%Z]
  /\ In (fst (saveTodo w)) (resolved (env w2))
  /\ List.length (todos (current w)) = 3
  /\ List.length (todos (current w2)) = 4
  /\ todos (current w2) =
     [ {| id := Some 0%Z; title := "Hello..."; done := false |};
       {| id := Some 1%Z; title := "World..."; done := false |};
       {| id := Some 2%Z; title := "Hello World..."; done := true |};
       {| id := Some 3%Z; title := "Milk"; done := false |} ].
Proof.
  cbv zeta. split; [|vm_compute; repeat split; auto].
  unfold in_random_range. split; [lia|]. apply Z.pow_pos_nonneg; lia.
Qed.

(** [C8] With the first fetched item (id 0) in the editor,
    [updateTodo({done: true})] sets [todo.done] and leaves the entry of
    [todos] with that id as it was, since [current.id] is falsy. *)
Theorem updateTodo_id_zero_does_not_propagate :
  let w := fetched_and_selected random_from_zero in
  let w' := updateTodo done_true w in
  todo (current w) = {| id := Some 0%Z; title := "Hello..."; done := false |}
  /\ nth_error (todos (current w)) 0 = Some (todo (current w))
  /\ todo (current w') =
     {| id := Some 0%Z; title := "Hello..."; done := true |}
  /\ todos (current w') = todos (current w)
  /\ nth_error (todos (current w')) 0 =
     Some {| id := Some 0%Z; title := "Hello..."; done := false |}.
Proof. vm_compute. repeat split. Qed.

(** ** Promises *)

(** How an event changes the resolved promises, the timers and the counter
    of promises. *)
Lemma step_promises (ev : Event) (w : World) :
  match ev with
  | EFetch =>
      resolved (env (step ev w)) = resolved (env w)
      /\ timers (step ev w) = timers w ++ [FetchCallback (next_promise w)]
      /\ next_promise (step ev w) = S (next_promise w)
  | ESave =>
      resolved (env (step ev w)) = resolved (env w)
      /\ timers (step ev w) = timers w ++ [SaveCallback (next_promise w)]
      /\ next_promise (step ev w) = S (next_promise w)
  | ERemove t =>
      resolved (env (step ev w)) = resolved (env w)
      /\ timers (step ev w) = timers w ++ [RemoveCallback t (next_promise w)]
      /\ next_promise (step ev w) = S (next_promise w)
  | ETick =>
      resolved (env (step ev w)) =
        match timers w with
        | FetchCallback q :: _ | SaveCallback q :: _ => q :: resolved (env w)
        | _ => resolved (env w)
        end
      /\ timers (step ev w) = tl (timers w)
      /\ next_promise (step ev w) = next_promise w
  | _ =>
      resolved (env (step ev w)) = resolved (env w)
      /\ timers (step ev w) = timers w
      /\ next_promise (step ev w) = next_promise w
  end.
Proof.
  destruct ev; simpl;
    rewrite ?update_timers, ?update_next_promise, ?assign_loading_env,
      ?assign_saving_env, ?updateTodo_env, ?selectTodo_env;
    unfold updateTodo, selectTodo;
    rewrite ?update_timers, ?update_next_promise; auto.
  split; [|split; [apply tick_timers|]].
  - unfold tick. destruct (timers w) as [|[q|q|t q] ts]; simpl; trivial.
    + now rewrite fetchTodos_callback_env.
    + now rewrite saveTodo_callback_env.
    + now rewrite removeTodo_callback_env.
  - unfold tick. destruct (timers w) as [|[q|q|t q] ts]; simpl; trivial;
      now rewrite update_next_promise.
Qed.

Lemma step_promises_created (ev : Event) (w : World) :
  promises_created w -> promises_created (step ev w).
Proof.
  intros [Hr Ht]. pose proof (step_promises ev w) as H.
  unfold promises_created.
  destruct ev; destruct H as (-> & -> & ->);
    try (split; [intros q Hq; specialize (Hr q Hq); lia|];
         intros t' Ht'; apply in_app_or in Ht'; destruct Ht' as [Ht'|[<-|[]]];
         [specialize (Ht t' Ht'); lia | simpl; lia]);
    try (split; assumption).
  destruct (timers w) as [|t ts]; simpl; [split; assumption|].
  assert (Hp : task_promise t < next_promise w) by (apply Ht; now left).
  assert (Hts : forall t', In t' ts -> task_promise t' < next_promise w)
    by (intros t' Ht'; apply Ht; now right).
  split; trivial.
  destruct t as [q|q|t q]; simpl in *; trivial;
    intros q' [<-|Hq']; auto.
Qed.

Lemma run_promises_created (evs : list Event) :
  forall w, promises_created w -> promises_created (run evs w).
Proof.
  induction evs as [|ev evs IH]; intros w H; simpl; trivial.
  apply IH. now apply step_promises_created.
Qed.

Lemma store_promises_created (r : nat -> number) : promises_created (store r).
Proof. split; simpl; intros ? []. Qed.

Lemma step_stays_pending (p : promise) (ev : Event) (w : World) :
  stays_pending p w -> stays_pending p (step ev w).
Proof.
  intros (Hp & Hr & Ht). pose proof (step_promises ev w) as H.
  unfold stays_pending.
  destruct ev; destruct H as (-> & -> & ->);
    try (split; [lia|split; [assumption|]];
         intros t' Ht'; apply in_app_or in Ht'; destruct Ht' as [Ht'|[<-|[]]];
         [now apply Ht | split; intros E; inversion E; lia]);
    try (split; [|split]; assumption).
  destruct (timers w) as [|t ts]; simpl; [split; [|split]; assumption|].
  assert (Hh : t <> FetchCallback p /\ t <> SaveCallback p)
    by (apply Ht; now left).
  assert (Hts : forall t', In t' ts ->
                           t' <> FetchCallback p /\ t' <> SaveCallback p)
    by (intros t' Ht'; apply Ht; now right).
  split; [assumption|split; [|assumption]].
  destruct Hh as [Hf Hs].
  destruct t as [q|q|t q]; trivial; intros [<-|Hq]; auto.
Qed.

Lemma run_stays_pending (p : promise) (evs : list Event) :
  forall w, stays_pending p w -> stays_pending p (run evs w).
Proof.
  induction evs as [|ev evs IH]; intros w H; simpl; trivial.
  apply IH. now apply step_stays_pending.
Qed.

(** The state the callback of [removeTodo(t)] leaves. *)
Lemma removeTodo_timer_state (t : Todo) (w : World) :
  timers w = [] ->
  let w2 := tick (snd (removeTodo t w)) in
  forallb (fun item => negb (strict_eq (id item) (id t))) (todos (current w2))
  = true
  /\ todos (current w2) =
     filter (fun item => negb (strict_eq (id item) (id t))) (todos (current w))
  /\ todo (current w2) = empty_todo
  /\ saving (current w2) = false.
Proof.
  intros Ht w2. unfold w2, removeTodo, tick; simpl.
  rewrite update_timers, Ht. simpl.
  rewrite removeTodo_callback_current. simpl.
  rewrite !current_mkWorld, assign_saving_current. simpl.
  repeat split; auto.
  apply forallb_forall. intros x Hx. apply filter_In in Hx. tauto.
Qed.

(** [C7] The promise returned by [removeTodo(t)] is never resolved: in every
    store reached from the initial one, whatever the clients do and whichever
    timers fire after the call, [resolve] has not been called for it. *)
Theorem removeTodo_promise_never_resolves :
  forall (r : nat -> number) (before after : list Event) (t : Todo),
    let w := run before (store r) in
    let p := fst (removeTodo t w) in
    ~ In p (resolved (env (run after (snd (removeTodo t w))))).
Proof.
  intros r before after t w p.
  assert (Hc : promises_created w)
    by (apply run_promises_created, store_promises_created).
  assert (Hs : stays_pending p (step (ERemove t) w)).
  { destruct Hc as [Hr Ht].
    destruct (step_promises (ERemove t) w) as (Er & Et & En).
    unfold stays_pending. rewrite Er, Et, En.
    assert (Ep : p = next_promise w).
    { unfold p, removeTodo; simpl. apply update_next_promise. }
    rewrite Ep. split; [lia|split].
    - intros H. specialize (Hr _ H). lia.
    - intros t' Ht'. apply in_app_or in Ht'. destruct Ht' as [Ht'|[<-|[]]].
      + specialize (Ht _ Ht').
        split; intros ->; simpl in Ht; lia.
      + split; discriminate. }
  apply (run_stays_pending p after) in Hs. apply Hs.
Qed.

(** ** Ids of the list *)

Lemma replace_on_id_match_ids (c : Todo) (l : list Todo) :
  map id (map (fun item => if strict_eq (id item) (id c) then c else item) l)
  = map id l.
Proof.
  induction l as [|x l IH]; simpl; trivial. rewrite IH. f_equal.
  destruct (strict_eq (id x) (id c)) eqn:E; trivial.
  symmetry. now apply strict_eq_true.
Qed.

Lemma filter_on_id_ids (P : option number -> bool) (l : list Todo) :
  map id (filter (fun item => P (id item)) l) = filter P (map id l).
Proof. symmetry. apply filter_map_swap. Qed.

Lemma Forall_lt_weaken (ks : list nat) (c c' : nat) :
  c <= c' -> Forall (fun k => k < c) ks -> Forall (fun k => k < c') ks.
Proof.
  intros Hc H. eapply Forall_impl; [|exact H]. simpl. intros; lia.
Qed.

Section DistinctDraws.

Variable r : nat -> number.

(** The invariant only depends on the held snapshot and on [env]. *)
Lemma distinct_draws_ext (w w' : World) :
  env w' = env w ->
  map id (todos (current w')) = map id (todos (current w)) ->
  ids_are_distinct_draws r w -> ids_are_distinct_draws r w'.
Proof.
  intros He Hi (Hr & ks & Hk & Hn & Hf).
  split; [now rewrite He|]. exists ks. now rewrite Hi, He.
Qed.

Lemma run_task_distinct_draws (t : Task) (w : World) :
  ids_are_distinct_draws r w -> ids_are_distinct_draws r (run_task t w).
Proof.
  intros (Hr & ks & Hk & Hn & Hf). destruct t as [q|q|t q]; simpl.
  - split; [now rewrite fetchTodos_callback_env|].
    rewrite fetchTodos_callback_env, fetchTodos_callback_current. simpl.
    rewrite Hr.
    exists [cursor (env w); S (cursor (env w)); S (S (cursor (env w)))].
    split; [reflexivity|split].
    + repeat constructor; simpl; lia.
    + repeat constructor; lia.
  - split; [now rewrite saveTodo_callback_env|].
    rewrite saveTodo_callback_env, saveTodo_callback_current. simpl.
    destruct (truthy_id (id (todo (current w)))).
    + exists ks. now rewrite replace_on_id_match_ids.
    + exists (ks ++ [cursor (env w)]).
      rewrite !map_app, Hk, Hr. simpl. split; [reflexivity|split].
      * apply NoDup_app; trivial.
        -- repeat constructor. simpl. tauto.
        -- intros k Hin [<-|[]].
           rewrite Forall_forall in Hf. specialize (Hf _ Hin). lia.
      * apply Forall_app. split.
        -- eapply Forall_lt_weaken; [|exact Hf]. lia.
        -- repeat constructor.
  - split; [now rewrite removeTodo_callback_env|].
    rewrite removeTodo_callback_env, removeTodo_callback_current. simpl.
    rewrite (filter_on_id_ids (fun i => negb (strict_eq i (id t)))), Hk.
    rewrite filter_map_swap.
    eexists. split; [reflexivity|split].
    + now apply NoDup_filter.
    + apply Forall_forall. intros k Hin. apply filter_In in Hin.
      rewrite Forall_forall in Hf. apply Hf. tauto.
Qed.

Lemma step_distinct_draws (ev : Event) (w : World) :
  ids_are_distinct_draws r w -> ids_are_distinct_draws r (step ev w).
Proof.
  intros H. destruct ev; simpl.
  - apply (distinct_draws_ext w); trivial; simpl.
    + apply assign_loading_env.
    + rewrite current_mkWorld, assign_loading_current. reflexivity.
  - apply (distinct_draws_ext w); trivial; simpl.
    + apply assign_saving_env.
    + rewrite current_mkWorld, assign_saving_current. reflexivity.
  - apply (distinct_draws_ext w); trivial.
    + apply updateTodo_env.
    + rewrite updateTodo_current. cbv zeta. unfold todos at 1.
      destruct (truthy_id _); trivial. apply replace_on_id_match_ids.
  - apply (distinct_draws_ext w); trivial; simpl.
    + apply assign_saving_env.
    + rewrite current_mkWorld, assign_saving_current. reflexivity.
  - apply (distinct_draws_ext w); trivial.
    + apply selectTodo_env.
    + rewrite selectTodo_current. now destruct t.
  - apply (distinct_draws_ext w); trivial.
  - apply (distinct_draws_ext w); trivial.
  - unfold tick. destruct (timers w) as [|t ts]; trivial.
    apply run_task_distinct_draws. apply (distinct_draws_ext w); trivial.
Qed.

Lemma run_distinct_draws (evs : list Event) :
  forall w, ids_are_distinct_draws r w ->
            ids_are_distinct_draws r (run evs w).
Proof.
  induction evs as [|ev evs IH]; intros w H; simpl; trivial.
  apply IH. now apply step_distinct_draws.
Qed.

Lemma store_distinct_draws : ids_are_distinct_draws r (store r).
Proof.
  split; [reflexivity|]. exists []. repeat split; constructor.
Qed.

End DistinctDraws.

(** In a list whose ids are pairwise different, at most one entry has a
    given id. *)
Lemma at_most_one_with_id (i : option number) (l : list Todo) :
  NoDup (map id l) ->
  List.length (filter (fun item => strict_eq (id item) i) l) <= 1.
Proof.
  induction l as [|x l IH]; simpl; [lia|].
  intros H. inversion H as [|? ? Hx Hl]; subst.
  destruct (strict_eq (id x) i) eqn:E; [|now apply IH].
  apply strict_eq_true in E. subst i. simpl.
  assert (F : filter (fun item => strict_eq (id item) (id x)) l = []).
  { destruct (filter _ l) as [|y ys] eqn:Ef; trivial.
    exfalso. apply Hx.
    assert (Hy : In y (filter (fun item => strict_eq (id item) (id x)) l))
      by (rewrite Ef; now left).
    apply filter_In in Hy. destruct Hy as [Hy Ey].
    apply strict_eq_true in Ey. rewrite <- Ey. now apply in_map. }
  rewrite F. simpl. lia.
Qed.

(** [C9] As long as [Math.random()] never returns the same value twice, in
    every state reached from the initial store by the action functions,
    subscriptions and timers, at most one entry of [todos] has an id [===]
    to the id of the in-edit [todo]. *)
Theorem at_most_one_shares_id_without_collision :
  forall (r : nat -> number) (evs : list Event),
    no_collision r ->
    List.length (sharing_id (current (run evs (store r)))) <= 1.
Proof.
  intros r evs Hr.
  destruct (run_distinct_draws r evs (store r) (store_distinct_draws r))
    as (_ & ks & Hk & Hn & _).
  unfold sharing_id. apply at_most_one_with_id. rewrite Hk.
  apply NoDup_map_NoDup_ForallPairs; trivial.
  intros x y _ _ E. apply Hr. congruence.
Qed.

Lemma at_most_one_shares_id_without_collision_witness :
  List.length
    (sharing_id
       (current
          (run [EFetch; ETick; ESelect (Other (first_seed random_distinct));
                EUpdate done_true; ESave; ETick]
               (store random_distinct)))) <= 1.
Proof.
  apply (at_most_one_shares_id_without_collision random_distinct
           [EFetch; ETick; ESelect (Other (first_seed random_distinct));
            EUpdate done_true; ESave; ETick]).
  unfold no_collision, random_distinct. intros i j H. lia.
Defined.

(** When [Math.random()] returns the same value for two of the fetched
    items, clicking one of them leaves several entries of [todos] with the id
    of the in-edit [todo]. *)
Lemma colliding_ids_shared_by_three :
  sharing_id
    (current (run [EFetch; ETick; ESelect (Other (first_seed random_stuck))]
                  (store random_stuck)))
  = [ {| id := Some 1%Z; title := "Hello..."; done := false |};
      {| id := Some 1%Z; title := "World..."; done := false |};
      {| id := Some 1%Z; title := "Hello World..."; done := true |} ]
  /\ ~ List.length
         (sharing_id
            (current
               (run [EFetch; ETick; ESelect (Other (first_seed random_stuck))]
                    (store random_stuck)))) <= 1.
Proof. split; [vm_compute; reflexivity | vm_compute; lia]. Qed.

(* ================================================================= *)
(** * Further properties of the store *)

Lemma set_add_NoDup (l : listener) (ls : list listener) :
  NoDup ls -> NoDup (set_add l ls).
Proof.
  intros H. unfold set_add. destruct (existsb (Nat.eqb l) ls) eqn:E; trivial.
  apply NoDup_app; trivial.
  - repeat constructor. simpl. tauto.
  - intros x Hx [->|[]].
    assert (existsb (Nat.eqb x) ls = true); [|congruence].
    apply existsb_exists. exists x. split; trivial. apply Nat.eqb_refl.
Qed.

Lemma store_call_NoDup (c : StoreCall) (w : World) :
  NoDup (listeners w) -> NoDup (listeners (store_call c w)).
Proof.
  intros H. destruct c as [u|l|l]; simpl.
  - now rewrite update_listeners.
  - now apply set_add_NoDup.
  - now apply NoDup_filter.
Qed.

Lemma store_calls_NoDup (cs : list StoreCall) :
  forall w, NoDup (listeners w) -> NoDup (listeners (store_calls cs w)).
Proof.
  induction cs as [|c cs IH]; intros w H; simpl; trivial.
  apply IH. now apply store_call_NoDup.
Qed.

Lemma occurs_once (l : listener) (ls : list listener) :
  NoDup ls -> In l ls ->
  List.length (filter (fun fn => Nat.eqb fn l) ls) = 1.
Proof.
  induction ls as [|x ls IH]; simpl; [tauto|].
  intros H Hin. inversion H as [|? ? Hx Hn]; subst.
  destruct (Nat.eqb x l) eqn:E.
  - apply Nat.eqb_eq in E. subst x. simpl. f_equal.
    destruct (filter (fun fn => Nat.eqb fn l) ls) as [|y ys] eqn:F; trivial.
    exfalso. apply Hx.
    assert (Hy : In y (filter (fun fn => Nat.eqb fn l) ls))
      by (rewrite F; now left).
    apply filter_In in Hy. destruct Hy as [Hy Ey].
    apply Nat.eqb_eq in Ey. now subst.
  - destruct Hin as [->|Hin]; [now rewrite Nat.eqb_refl in E|]. now apply IH.
Qed.

(** [X1] The listeners are a [Set]: however often a listener was passed to
    [subscribe], an update that changes the state invokes it exactly once. *)
Theorem subscribed_listener_invoked_once :
  forall (r : nat -> number) (cs : list StoreCall) (u : Recipe unit)
         (l : listener),
    let w := store_calls cs (store r) in
    In l (listeners w) ->
    produced u w <> state w ->
    NoDup (listeners w)
    /\ List.length (filter (fun i => Nat.eqb (fst i) l)
                           (invoked_since w (update u w))) = 1.
Proof.
  intros r cs u l w Hin Hp.
  assert (Hn : NoDup (listeners w))
    by (apply store_calls_NoDup; simpl; constructor).
  split; trivial.
  rewrite produced_eq in Hp. unfold invoked_since.
  rewrite update_eq; cbv zeta.
  destruct (modified (drafted u w)); [|congruence].
  destruct (Nat.eqb (next_loc (heap w)) (state w)) eqn:E.
  { apply Nat.eqb_eq in E. congruence. }
  simpl. rewrite skipn_app, skipn_all, Nat.sub_diag. simpl.
  rewrite <- (length_map fst), <- (occurs_once l (listeners w) Hn Hin).
  f_equal. clear. induction (listeners w) as [|x ls IH]; simpl; trivial.
  destruct (Nat.eqb x l); simpl; now rewrite IH.
Qed.

Lemma subscribed_listener_invoked_once_witness :
  let w := store_calls [CallSubscribe 5; CallSubscribe 7; CallSubscribe 5]
                       (store random_distinct) in
  listeners w = [5; 7]
  /\ invoked_since w (update (assign_saving true) w) = [(5, 1); (7, 1)].
Proof.
  pose proof (subscribed_listener_invoked_once random_distinct
                [CallSubscribe 5; CallSubscribe 7; CallSubscribe 5]
                (assign_saving true) 5) as H.
  destruct H as [_ H].
  - vm_compute. now left.
  - vm_compute. discriminate.
  - split; vm_compute; reflexivity.
Defined.

Lemma filter_all {A} (f : A -> bool) (l : list A) :
  (forall x, In x l -> f x = true) -> filter f l = l.
Proof.
  induction l as [|x l IH]; simpl; trivial. intros H.
  rewrite (H x (or_introl eq_refl)). f_equal. apply IH. intros y Hy.
  apply H. now right.
Qed.

(** [X2] For a listener that is not subscribed, [subscribe] followed by the
    function it returns leaves the store as it was. *)
Theorem subscribe_unsubscribe_round_trip :
  forall (l : listener) (w : World),
    ~ In l (listeners w) ->
    fst (subscribe l w) (snd (subscribe l w)) = w.
Proof.
  intros l w H. destruct w as [h s ls e c t n]. unfold subscribe; simpl in *.
  unfold with_listeners; simpl. f_equal.
  unfold set_add. destruct (existsb (Nat.eqb l) ls) eqn:E.
  - exfalso. apply H. apply existsb_exists in E. destruct E as (x & Hx & Hl).
    apply Nat.eqb_eq in Hl. now subst.
  - unfold set_delete. rewrite filter_app. simpl. rewrite Nat.eqb_refl. simpl.
    rewrite app_nil_r. apply filter_all. intros x Hx.
    apply negb_true_iff, Nat.eqb_neq. intros ->. now apply H.
Qed.

Lemma subscribe_unsubscribe_round_trip_witness :
  let w := snd (subscribe 5 (store random_distinct)) in
  fst (subscribe 7 w) (snd (subscribe 7 w)) = w
  /\ listeners (fst (subscribe 5 w) (snd (subscribe 5 w))) = [].
Proof.
  split.
  - apply (subscribe_unsubscribe_round_trip 7
             (snd (subscribe 5 (store random_distinct)))).
    simpl. intros [H|[]]. discriminate.
  - reflexivity.
Defined.

Lemma last_delivered_app (l : listener) (log1 log2 : list (listener * loc)) :
  last_delivered l (log1 ++ log2) =
  match last_delivered l log2 with
  | Some s => Some s
  | None => last_delivered l log1
  end.
Proof.
  induction log1 as [|[fn s] log1 IH]; simpl.
  - now destruct (last_delivered l log2).
  - rewrite IH. now destruct (last_delivered l log2).
Qed.

Lemma last_delivered_map (l : listener) (s : loc) (ls : list listener) :
  last_delivered l (map (fun fn => (fn, s)) ls) =
  if existsb (fun fn => Nat.eqb fn l) ls then Some s else None.
Proof.
  induction ls as [|x ls IH]; simpl; trivial. rewrite IH.
  destruct (existsb (fun fn => Nat.eqb fn l) ls), (Nat.eqb x l); reflexivity.
Qed.

Lemma last_delivered_notify (l : listener) (s : loc) (ls : list listener) :
  In l ls -> last_delivered l (map (fun fn => (fn, s)) ls) = Some s.
Proof.
  intros H. rewrite last_delivered_map.
  assert (E : existsb (fun fn => Nat.eqb fn l) ls = true).
  { apply existsb_exists. exists l. split; trivial. apply Nat.eqb_refl. }
  now rewrite E.
Qed.

Lemma store_call_keeps_latest (l : listener) (c : StoreCall) (w : World) :
  In l (listeners w) ->
  last_delivered l (calls w) = Some (state w) ->
  is_unsubscribe_of l c = false ->
  In l (listeners (store_call c w))
  /\ last_delivered l (calls (store_call c w)) = Some (state (store_call c w)).
Proof.
  intros Hin Hl Hc. destruct c as [u|l'|l']; simpl in *.
  - rewrite update_listeners. split; trivial.
    rewrite update_eq; cbv zeta.
    destruct (modified _); [destruct (Nat.eqb _ _)|]; simpl; trivial.
    rewrite last_delivered_app. now rewrite last_delivered_notify.
  - split; trivial. unfold set_add.
    destruct (existsb _ _); trivial. apply in_or_app. now left.
  - split; trivial. apply filter_In. split; trivial.
    apply negb_true_iff, Nat.eqb_neq. intros ->.
    now rewrite Nat.eqb_refl in Hc.
Qed.

(** [X3] A subscribed listener that was last invoked with the snapshot the
    store holds stays so: after any calls of the store other than its own
    unsubscription, the snapshot it was last invoked with is the one the
    store holds. *)
Theorem subscribed_listener_has_current_snapshot :
  forall (l : listener) (cs : list StoreCall) (w : World),
    In l (listeners w) ->
    last_delivered l (calls w) = Some (state w) ->
    forallb (fun c => negb (is_unsubscribe_of l c)) cs = true ->
    last_delivered l (calls (store_calls cs w))
    = Some (state (store_calls cs w)).
Proof.
  intros l cs. induction cs as [|c cs IH]; intros w Hin Hl Hcs; simpl in *.
  - exact Hl.
  - apply andb_true_iff in Hcs. destruct Hcs as [Hc Hcs].
    apply negb_true_iff in Hc.
    destruct (store_call_keeps_latest l c w Hin Hl Hc) as [Hin' Hl'].
    now apply IH.
Qed.

Lemma subscribed_listener_has_current_snapshot_witness :
  let w := update (assign_saving true)
                  (snd (subscribe 5 (store random_distinct))) in
  last_delivered 5
    (calls (store_calls [CallUpdate (assign_loading true);
                         CallUpdate (assign_loading true);
                         CallSubscribe 7;
                         CallUpdate (assign_saving false)] w))
  = Some 3.
Proof.
  apply (subscribed_listener_has_current_snapshot 5
           [CallUpdate (assign_loading true); CallUpdate (assign_loading true);
            CallSubscribe 7; CallUpdate (assign_saving false)]
           (update (assign_saving true)
                   (snd (subscribe 5 (store random_distinct))))).
  - vm_compute. now left.
  - vm_compute. reflexivity.
  - reflexivity.
Defined.

(* ================================================================= *)
(** * Further properties of the action functions *)

Lemma drafted_assign_saving (v : bool) (w : World) :
  modified (drafted (assign_saving v) w) = negb (Bool.eqb (saving (current w)) v).
Proof.
  unfold drafted, assign_saving, write, createDraft; simpl.
  now destruct (Bool.eqb (saving (current w)) v).
Qed.

Lemma drafted_assign_loading (v : bool) (w : World) :
  modified (drafted (assign_loading v) w)
  = negb (Bool.eqb (loading (current w)) v).
Proof.
  unfold drafted, assign_loading, write, createDraft; simpl.
  now destruct (Bool.eqb (loading (current w)) v).
Qed.

(** [X4] [selectTodo(t)] makes [t] the in-edit todo and leaves [todos],
    [saving], [loading] and the timers as they are.  When [t] is the very
    object the state already holds as [todo], the store keeps its snapshot
    and no listener is invoked. *)
Theorem selectTodo_replaces_in_edit_todo :
  forall (t : ObjArg) (w : World),
    todo (current (selectTodo t w)) = arg_content t w
    /\ todos (current (selectTodo t w)) = todos (current w)
    /\ saving (current (selectTodo t w)) = saving (current w)
    /\ loading (current (selectTodo t w)) = loading (current w)
    /\ timers (selectTodo t w) = timers w
    /\ (t = Held ->
        state (selectTodo t w) = state w
        /\ calls (selectTodo t w) = calls w).
Proof.
  intros t w. rewrite selectTodo_current.
  unfold selectTodo at 1. rewrite update_timers.
  do 4 (split; [now destruct t|]). split; [reflexivity|].
  intros ->.
  destruct (update_unchanged (assign_todo Held) w) as [Hc Hs].
  - rewrite produced_eq. reflexivity.
  - now split.
Qed.

Lemma selectTodo_replaces_in_edit_todo_witness :
  let w := fetched_and_selected random_distinct in
  calls (selectTodo Held (snd (subscribe 5 w))) = []
  /\ todo (current (selectTodo Held w)) = first_seed random_distinct.
Proof.
  pose proof (selectTodo_replaces_in_edit_todo Held
                (snd (subscribe 5 (fetched_and_selected random_distinct))))
    as H.
  destruct H as (H1 & _ & _ & _ & _ & H2).
  destruct (H2 eq_refl) as [_ Hc].
  split; [exact Hc | reflexivity].
Defined.

(** [X5] [fetchTodos()] called while [loading] is already true, and
    [saveTodo()] or [removeTodo(t)] called while [saving] is already true,
    invoke no listener at the call and keep the held snapshot; their timer
    is scheduled all the same. *)
Theorem action_with_flag_already_set_notifies_nobody :
  forall (t : Todo) (w : World),
    (loading (current w) = true ->
     calls (snd (fetchTodos w)) = calls w
     /\ state (snd (fetchTodos w)) = state w
     /\ timers (snd (fetchTodos w))
        = timers w ++ [FetchCallback (fst (fetchTodos w))])
    /\ (saving (current w) = true ->
        calls (snd (saveTodo w)) = calls w
        /\ state (snd (saveTodo w)) = state w
        /\ timers (snd (saveTodo w))
           = timers w ++ [SaveCallback (fst (saveTodo w))])
    /\ (saving (current w) = true ->
        calls (snd (removeTodo t w)) = calls w
        /\ state (snd (removeTodo t w)) = state w
        /\ timers (snd (removeTodo t w))
           = timers w ++ [RemoveCallback t (fst (removeTodo t w))]).
Proof.
  intros t w.
  assert (L : loading (current w) = true ->
              calls (update (assign_loading true) w) = calls w
              /\ state (update (assign_loading true) w) = state w).
  { intros H. apply update_unchanged.
    now rewrite produced_eq, drafted_assign_loading, H. }
  assert (S : saving (current w) = true ->
              calls (update (assign_saving true) w) = calls w
              /\ state (update (assign_saving true) w) = state w).
  { intros H. apply update_unchanged.
    now rewrite produced_eq, drafted_assign_saving, H. }
  unfold fetchTodos, saveTodo, removeTodo; simpl.
  rewrite !update_timers.
  split; [|split]; intros H; (split; [|split]); trivial;
    try (now apply L); now apply S.
Qed.

Lemma action_with_flag_already_set_notifies_nobody_witness :
  let w := snd (saveTodo (snd (subscribe 5 (store random_distinct)))) in
  calls w = [(5, 1)]
  /\ calls (snd (saveTodo w)) = calls w
  /\ List.length (timers (snd (saveTodo w))) = 2.
Proof.
  pose proof (action_with_flag_already_set_notifies_nobody empty_todo
                (snd (saveTodo (snd (subscribe 5 (store random_distinct))))))
    as H.
  destruct H as (_ & H & _). destruct (H eq_refl) as (Hc & _ & Ht).
  split; [reflexivity|]. split; [exact Hc|].
  cbv zeta. rewrite Ht. reflexivity.
Defined.

(** [X6] The promise of [saveTodo()] is always resolved: once the timers
    pending before it and its own have fired, [resolve] has been called,
    the in-edit todo is [{title: '', done: false}], [saving] is false,
    [loading] is untouched and [todos] has kept its length or grown by one,
    whatever the state was when the callback ran. *)
Theorem saveTodo_always_resolves :
  forall w : World,
    let p := fst (saveTodo w) in
    let w' := ticks (List.length (timers w)) (snd (saveTodo w)) in
    let w2 := tick w' in
    In p (resolved (env w2))
    /\ todo (current w2) = empty_todo
    /\ saving (current w2) = false
    /\ loading (current w2) = loading (current w')
    /\ List.length (todos (current w')) <= List.length (todos (current w2))
    /\ List.length (todos (current w2)) <= S (List.length (todos (current w'))).
Proof.
  intros w p w' w2.
  assert (T : timers w' = [SaveCallback p]).
  { unfold w', p, saveTodo.
    rewrite <- (update_timers (assign_saving true) w).
    rewrite scheduled_last. reflexivity. }
  unfold w2, tick. rewrite T. simpl run_task.
  rewrite saveTodo_callback_env, saveTodo_callback_current. simpl.
  rewrite !current_mkWorld.
  split; [now left|]. do 3 (split; [reflexivity|]).
  destruct (truthy_id (id (todo (current w')))).
  - rewrite length_map. lia.
  - rewrite length_app. simpl. lia.
Qed.

Lemma replace_without_match (c : Todo) (l : list Todo) :
  forallb (fun item => negb (strict_eq (id item) (id c))) l = true ->
  map (fun item => if strict_eq (id item) (id c) then c else item) l = l.
Proof.
  induction l as [|x l IH]; simpl; trivial. intros H.
  apply andb_true_iff in H. destruct H as [Hx Hl].
  apply negb_true_iff in Hx. rewrite Hx. f_equal. now apply IH.
Qed.

(** [X7] In a store with no timer pending, when the in-edit todo carries a
    non-zero id that no entry of [todos] has, [saveTodo()] resolves with
    [todos] as it was: the edit is dropped, and the in-edit todo is reset
    all the same. *)
Theorem saveTodo_unknown_id_drops_edit :
  forall w : World,
    timers w = [] ->
    truthy_id (id (todo (current w))) = true ->
    forallb (fun item => negb (strict_eq (id item) (id (todo (current w)))))
            (todos (current w)) = true ->
    let w2 := tick (snd (saveTodo w)) in
    In (fst (saveTodo w)) (resolved (env w2))
    /\ todos (current w2) = todos (current w)
    /\ todo (current w2) = empty_todo
    /\ saving (current w2) = false.
Proof.
  intros w Ht Hid Hno w2.
  destruct (saveTodo_replaces_truthy_id w Ht Hid) as (Hr & Hm & _ & He & Hs).
  fold w2 in Hr, Hm, He, Hs.
  repeat split; trivial.
  rewrite Hm. now apply replace_without_match.
Qed.

Lemma saveTodo_unknown_id_drops_edit_witness :
  let gone := {| id := Some 9%Z; title := "Gone"; done := false |} in
  let w := run [EFetch; ETick; ESelect (Other gone)] (store random_distinct) in
  todo (current w) = gone
  /\ todos (current (tick (snd (saveTodo w)))) = todos (current w)
  /\ todo (current (tick (snd (saveTodo w)))) = empty_todo.
Proof.
  pose proof (saveTodo_unknown_id_drops_edit
                (run [EFetch; ETick;
                      ESelect (Other {| id := Some 9%Z; title := "Gone";
                                        done := false |})]
                     (store random_distinct))) as H.
  destruct H as (_ & H1 & H2 & _); try reflexivity.
  split; [reflexivity|]. split; [exact H1 | exact H2].
Defined.

(** ** Ids of the entries in reachable states *)

Lemma reachable_ids_NoDup (r : nat -> number) (evs : list Event) :
  no_collision r ->
  NoDup (map id (todos (current (run evs (store r))))).
Proof.
  intros Hr.
  destruct (run_distinct_draws r evs (store r) (store_distinct_draws r))
    as (_ & ks & Hk & Hn & _).
  rewrite Hk. apply NoDup_map_NoDup_ForallPairs; trivial.
  intros x y _ _ E. apply Hr. congruence.
Qed.

Lemma reachable_ids_drawn (r : nat -> number) (evs : list Event) :
  forall t, In t (todos (current (run evs (store r)))) ->
            exists k, k < cursor (env (run evs (store r)))
                      /\ id t = Some (r k).
Proof.
  destruct (run_distinct_draws r evs (store r) (store_distinct_draws r))
    as (_ & ks & Hk & _ & Hf).
  intros t Ht. apply (in_map id) in Ht. rewrite Hk in Ht.
  apply in_map_iff in Ht. destruct Ht as (k & E & Hin).
  exists k. split; [|now symmetry].
  rewrite Forall_forall in Hf. now apply Hf.
Qed.

(** [X8] In every state reached from the initial store, whatever objects
    the clients pass to [selectTodo], [updateTodo] and [removeTodo], each
    entry of [todos] has an id, and that id is one of the results of
    [Math.random()] drawn so far. *)
Theorem todos_entries_have_drawn_ids :
  forall (r : nat -> number) (evs : list Event),
    let w := run evs (store r) in
    Forall (fun t => exists k, k < cursor (env w) /\ id t = Some (r k))
           (todos (current w)).
Proof.
  intros r evs w. apply Forall_forall. intros t Ht.
  now apply reachable_ids_drawn.
Qed.

Lemma strict_eq_same (a : option number) : strict_eq a a = true.
Proof. destruct a; simpl; trivial. apply Z.eqb_refl. Qed.

Lemma distinct_from_unique (x : Todo) (l1 l2 : list Todo) :
  NoDup (map id (l1 ++ x :: l2)) ->
  forall item, In item (l1 ++ l2) -> strict_eq (id item) (id x) = false.
Proof.
  intros H item Hin. rewrite map_app in H. simpl in H.
  apply NoDup_remove_2 in H. rewrite <- map_app in H.
  destruct (strict_eq (id item) (id x)) eqn:E; trivial.
  exfalso. apply H. apply strict_eq_true in E. rewrite <- E.
  now apply in_map.
Qed.

(** [X9] Without id collisions, [removeTodo(t)] removes exactly one entry:
    in a reachable state with no timer pending where [t] has the id of an
    entry of [todos], the callback leaves the entries before it followed by
    the entries after it. *)
Theorem removeTodo_removes_exactly_one :
  forall (r : nat -> number) (evs : list Event) (t x : Todo)
         (l1 l2 : list Todo),
    no_collision r ->
    let w := run evs (store r) in
    timers w = [] ->
    todos (current w) = l1 ++ x :: l2 ->
    id t = id x ->
    todos (current (tick (snd (removeTodo t w)))) = l1 ++ l2.
Proof.
  intros r evs t x l1 l2 Hr w Ht Hl Hid.
  destruct (removeTodo_timer_state t w Ht) as (_ & Hf & _).
  rewrite Hf, Hl, Hid.
  pose proof (reachable_ids_NoDup r evs Hr) as Hn. fold w in Hn.
  rewrite Hl in Hn. pose proof (distinct_from_unique x l1 l2 Hn) as Hd.
  rewrite filter_app. simpl. rewrite strict_eq_same. simpl.
  rewrite !filter_all; trivial; intros item Hin; apply negb_true_iff, Hd;
    apply in_or_app; tauto.
Qed.

Lemma removeTodo_removes_exactly_one_witness :
  let w := run [EFetch; ETick] (store random_distinct) in
  todos (current (tick (snd (removeTodo
                              {| id := Some 2%Z; title := "World...";
                                 done := false |} w))))
  = [ {| id := Some 1%Z; title := "Hello..."; done := false |};
      {| id := Some 3%Z; title := "Hello World..."; done := true |} ].
Proof.
  apply (removeTodo_removes_exactly_one random_distinct [EFetch; ETick]
           {| id := Some 2%Z; title := "World..."; done := false |}
           {| id := Some 2%Z; title := "World..."; done := false |}
           [ {| id := Some 1%Z; title := "Hello..."; done := false |} ]
           [ {| id := Some 3%Z; title := "Hello World..."; done := true |} ]).
  - unfold no_collision, random_distinct. intros i j H. lia.
  - reflexivity.
  - reflexivity.
  - reflexivity.
Defined.

(** [X10] [removeTodo(t)] for a [t] without id removes nothing: in a
    reachable state with no timer pending its callback leaves [todos] as it
    was, and still resets the in-edit todo and clears [saving]. *)
Theorem removeTodo_without_id_removes_nothing :
  forall (r : nat -> number) (evs : list Event) (t : Todo),
    let w := run evs (store r) in
    timers w = [] ->
    id t = None ->
    let w2 := tick (snd (removeTodo t w)) in
    todos (current w2) = todos (current w)
    /\ todo (current w2) = empty_todo
    /\ saving (current w2) = false.
Proof.
  intros r evs t w Ht Hid w2.
  destruct (removeTodo_timer_state t w Ht) as (_ & Hf & He & Hs).
  fold w2 in Hf, He, Hs. repeat split; trivial.
  rewrite Hf, Hid. apply filter_all. intros item Hin.
  destruct (reachable_ids_drawn r evs item Hin) as (k & _ & E).
  now rewrite E.
Qed.

Lemma removeTodo_without_id_removes_nothing_witness :
  let w := run [EFetch; ETick; EUpdate title_milk] (store random_distinct) in
  List.length (todos (current (tick (snd (removeTodo (todo (current w)) w)))))
  = 3
  /\ todo (current (tick (snd (removeTodo (todo (current w)) w)))) = empty_todo.
Proof.
  pose proof (removeTodo_without_id_removes_nothing random_distinct
                [EFetch; ETick; EUpdate title_milk]
                (todo (current (run [EFetch; ETick; EUpdate title_milk]
                                    (store random_distinct))))) as H.
  destruct H as (H1 & H2 & _); try reflexivity.
  cbv zeta. rewrite H1. split; [reflexivity | exact H2].
Defined.

(* ================================================================= *)
(** * Editing an item of the list *)

Lemma replace_unique (c x : Todo) (l1 l2 : list Todo) :
  NoDup (map id (l1 ++ x :: l2)) ->
  id c = id x ->
  map (fun item => if strict_eq (id item) (id c) then c else item)
      (l1 ++ x :: l2)
  = l1 ++ c :: l2.
Proof.
  intros Hn Hid. pose proof (distinct_from_unique x l1 l2 Hn) as Hd.
  rewrite Hid, map_app. simpl. rewrite strict_eq_same.
  assert (K : forall l, (forall item, In item l -> In item (l1 ++ l2)) ->
                        map (fun item => if strict_eq (id item) (id x)
                                         then c else item) l = l).
  { induction l as [|y l IH]; simpl; trivial. intros H.
    rewrite (Hd y (H y (or_introl eq_refl))). f_equal. apply IH.
    intros item Hi. apply H. now right. }
  rewrite !K; trivial; intros item Hi; apply in_or_app; tauto.
Qed.

(** The held snapshot after [selectTodo(a)] followed by [updateTodo(p)]. *)
Lemma select_then_update_current (a : ObjArg) (p : Partial) (w : World) :
  current (updateTodo p (selectTodo a w)) =
  let merged := spread (arg_content a w) p in
  {| saving := saving (current w);
     loading := loading (current w);
     todo := merged;
     todos := if truthy_id (id merged)
              then map (fun item => if strict_eq (id item) (id merged)
                                    then merged else item) (todos (current w))
              else todos (current w) |}.
Proof.
  rewrite updateTodo_current, selectTodo_current. now destruct a.
Qed.

Lemma arg_content_selected (a : ObjArg) (w : World) :
  arg_content a (selectTodo a w) = arg_content a w.
Proof. destruct a; simpl; trivial. now rewrite selectTodo_current. Qed.

(** [X11] Without id collisions, editing an item changes that item only:
    in a reachable state, [selectTodo] of an entry [x] of [todos] with a
    non-zero id followed by [updateTodo(p)], for a [p] without [id] key,
    leaves [todos] with the merged todo at the position of [x] and every
    other entry in place; the in-edit todo is the merged todo. *)
Theorem select_then_update_edits_in_place :
  forall (r : nat -> number) (evs : list Event) (a : ObjArg) (p : Partial)
         (x : Todo) (l1 l2 : list Todo),
    no_collision r ->
    let w := run evs (store r) in
    todos (current w) = l1 ++ x :: l2 ->
    arg_content a w = x ->
    truthy_id (id x) = true ->
    p_id p = None ->
    let w' := updateTodo p (selectTodo a w) in
    todo (current w') = spread x p
    /\ todos (current w') = l1 ++ spread x p :: l2
    /\ timers w' = timers w.
Proof.
  intros r evs a p x l1 l2 Hr w Hl Ha Hx Hp w'.
  assert (Hid : id (spread x p) = id x) by (unfold spread; now rewrite Hp).
  unfold w'. rewrite select_then_update_current. cbv zeta. rewrite Ha.
  unfold todo at 1, todos at 1. rewrite Hid at 1. rewrite Hx.
  split; [reflexivity|split].
  - rewrite Hl. apply replace_unique; trivial.
    rewrite <- Hl. now apply reachable_ids_NoDup.
  - unfold updateTodo, selectTodo. now rewrite !update_timers.
Qed.

Lemma select_then_update_edits_in_place_witness :
  let w := run [EFetch; ETick] (store random_distinct) in
  let x := {| id := Some 2%Z; title := "World..."; done := false |} in
  todos (current (updateTodo title_milk (selectTodo (Other x) w)))
  = [ {| id := Some 1%Z; title := "Hello..."; done := false |};
      {| id := Some 2%Z; title := "Milk"; done := false |};
      {| id := Some 3%Z; title := "Hello World..."; done := true |} ].
Proof.
  pose proof (select_then_update_edits_in_place random_distinct
                [EFetch; ETick]
                (Other {| id := Some 2%Z; title := "World..."; done := false |})
                title_milk
                {| id := Some 2%Z; title := "World..."; done := false |}
                [ {| id := Some 1%Z; title := "Hello..."; done := false |} ]
                [ {| id := Some 3%Z; title := "Hello World..."; done := true |} ])
    as H.
  destruct H as (_ & H & _);
    [ unfold no_collision, random_distinct; intros i j E; lia
    | reflexivity | reflexivity | reflexivity | reflexivity | exact H ].
Defined.

(** [X12] Without id collisions, clicking an item with a non-zero id and
    then its checkbox moves the [completed] count of the list by exactly
    one: down if the item was done, up if it was not. *)
Theorem toggle_moves_completed_by_one :
  forall (r : nat -> number) (evs : list Event) (a : ObjArg)
         (x : Todo) (l1 l2 : list Todo),
    no_collision r ->
    let w := run evs (store r) in
    todos (current w) = l1 ++ x :: l2 ->
    arg_content a w = x ->
    truthy_id (id x) = true ->
    let w' := TodoItem_onChange a (TodoItem_onClick a w) in
    if done x
    then S (completed (TodoList_selector (current w')))
         = completed (TodoList_selector (current w))
    else completed (TodoList_selector (current w'))
         = S (completed (TodoList_selector (current w))).
Proof.
  intros r evs a x l1 l2 Hr w Hl Ha Hx w'.
  set (toggled := spread x {| p_id := None; p_title := None;
                              p_done := Some (negb (done x)) |}).
  assert (E : todos (current w') = l1 ++ toggled :: l2).
  { unfold w', TodoItem_onChange, TodoItem_onClick.
    rewrite arg_content_selected, select_then_update_current. cbv zeta.
    rewrite Ha. fold toggled. unfold todos at 1.
    assert (Ht : truthy_id (id toggled) = true) by exact Hx.
    rewrite Ht, Hl. apply replace_unique; [|reflexivity].
    rewrite <- Hl. now apply reachable_ids_NoDup. }
  unfold TodoList_selector. simpl completed.
  rewrite E, Hl, !filter_app, !length_app. simpl.
  destruct (done x); simpl; lia.
Qed.

Lemma toggle_moves_completed_by_one_witness :
  let w := run [EFetch; ETick] (store random_distinct) in
  let x := {| id := Some 3%Z; title := "Hello World..."; done := true |} in
  completed (TodoList_selector (current w)) = 1
  /\ completed (TodoList_selector
                  (current (TodoItem_onChange (Other x)
                              (TodoItem_onClick (Other x) w)))) = 0.
Proof.
  pose proof (toggle_moves_completed_by_one random_distinct [EFetch; ETick]
                (Other {| id := Some 3%Z; title := "Hello World...";
                          done := true |})
                {| id := Some 3%Z; title := "Hello World..."; done := true |}
                [ {| id := Some 1%Z; title := "Hello..."; done := false |};
                  {| id := Some 2%Z; title := "World..."; done := false |} ]
                []) as H.
  cbv zeta in H. simpl done in H.
  split; [reflexivity|].
  apply eq_add_S. apply H; try reflexivity.
  unfold no_collision, random_distinct. intros i j E. lia.
Defined.

(* ================================================================= *)
(** * The container's life cycle *)

Lemma tick_listeners (w : World) : listeners (tick w) = listeners w.
Proof.
  unfold tick. destruct (timers w) as [|[q|q|t q] ts]; simpl; trivial;
    now rewrite update_listeners.
Qed.

Lemma ticks_listeners (n : nat) (w : World) :
  listeners (ticks n w) = listeners w.
Proof.
  induction n as [|n IH]; [reflexivity|].
  change (ticks (S n) w) with (tick (ticks n w)).
  now rewrite tick_listeners.
Qed.

Lemma tick_allocated (w : World) :
  allocated_state w -> allocated_state (tick w).
Proof.
  intros H. unfold tick. destruct (timers w) as [|[q|q|t q] ts]; trivial;
    now apply update_allocated.
Qed.

Lemma ticks_allocated (n : nat) (w : World) :
  allocated_state w -> allocated_state (ticks n w).
Proof.
  intros H. induction n as [|n IH]; [exact H|].
  change (ticks (S n) w) with (tick (ticks n w)). now apply tick_allocated.
Qed.

Lemma drafted_fetchTodos_callback (p : promise) (w : World) :
  modified (drafted (fetchTodos_callback p) w) = true.
Proof. run_recipe. reflexivity. Qed.

(** [X13] Mounting the container on a store whose snapshot is allocated
    subscribes its listener and starts the fetch; once the timers pending
    before and the fetch's own have fired, the listener is still subscribed,
    the snapshot it was last invoked with is the one the store holds, and
    that snapshot has the three fetched todos and [loading] false.
    Unmounting then takes the listener out of the set. *)
Theorem mounted_container_receives_fetched_list :
  forall (l : listener) (w : World),
    allocated_state w ->
    let w1 := componentDidMount (snd (componentWillMount l w)) in
    let w2 := ticks (S (List.length (timers w))) w1 in
    In l (listeners w2)
    /\ last_delivered l (calls w2) = Some (state w2)
    /\ List.length (todos (current w2)) = 3
    /\ loading (current w2) = false
    /\ ~ In l (listeners
                 (componentWillUnmount (fst (componentWillMount l w)) w2)).
Proof.
  intros l w Hw w1 w2.
  assert (U : ~ In l (listeners
                        (componentWillUnmount (fst (componentWillMount l w))
                                              w2)))
    by apply set_delete_not_in.
  revert U. generalize (componentWillUnmount (fst (componentWillMount l w)) w2).
  intros unmounted U.
  set (w0 := update (assign_loading true) (snd (subscribe l w))).
  set (w' := ticks (List.length (timers w)) w1).
  assert (T : timers w' = [FetchCallback (next_promise w0)]).
  { unfold w', w1, componentDidMount, componentWillMount, fetchTodos.
    fold w0.
    replace (timers w) with (timers w0)
      by (unfold w0; now rewrite update_timers).
    apply scheduled_last. }
  assert (L : In l (listeners w')).
  { unfold w', w1, componentDidMount, componentWillMount, fetchTodos.
    rewrite ticks_listeners. simpl. rewrite update_listeners. simpl.
    unfold set_add. destruct (existsb (Nat.eqb l) (listeners w)) eqn:E.
    - apply existsb_exists in E. destruct E as (x & Hx & Hl).
      apply Nat.eqb_eq in Hl. now subst.
    - apply in_or_app. right. now left. }
  assert (A : allocated_state w').
  { unfold w', w1, componentDidMount, componentWillMount, fetchTodos.
    apply ticks_allocated. unfold allocated_state; simpl.
    now apply (update_allocated (assign_loading true) (snd (subscribe l w))). }
  change w2 with (tick w'). unfold tick. rewrite T. simpl run_task.
  rewrite fetchTodos_callback_current. simpl.
  rewrite update_listeners. simpl. split; trivial.
  rewrite update_eq; cbv zeta. rewrite drafted_fetchTodos_callback. simpl.
  unfold allocated_state in A.
  destruct (Nat.eqb (next_loc (heap w')) (state w')) eqn:E.
  { apply Nat.eqb_eq in E. lia. }
  simpl. rewrite last_delivered_app, last_delivered_notify; trivial.
  now repeat split.
Qed.

Lemma mounted_container_receives_fetched_list_witness :
  let w := ticks 1 (componentDidMount
                      (snd (componentWillMount 5 (store random_distinct)))) in
  last_delivered 5 (calls w) = Some 2 /\ state w = 2.
Proof.
  pose proof (mounted_container_receives_fetched_list 5
                (store random_distinct)) as H.
  destruct H as (_ & H & _).
  - unfold allocated_state. simpl. lia.
  - split; [exact H | reflexivity].
Defined.

(* ================================================================= *)
(** * The editor *)

(** [X14] Adding an item: with no timer pending and an in-edit todo without
    id, typing a title and submitting the form ends, when the timer fires,
    with one entry appended to [todos] that carries the typed title, the
    draft's [done] and a drawn id; the typing itself leaves [todos] alone;
    afterwards the editor holds an empty draft. *)
Theorem type_and_submit_appends_titled_todo :
  forall (value : string) (w : World),
    timers w = [] ->
    id (todo (current w)) = None ->
    let typed := TodoEditor_onChange value w in
    let w2 := tick (snd (TodoEditor_onSubmit typed)) in
    todos (current typed) = todos (current w)
    /\ todos (current w2) =
       todos (current w) ++
       [ {| id := Some (rng (env w) (cursor (env w)));
            title := value;
            done := done (todo (current w)) |} ]
    /\ todo (current w2) = empty_todo
    /\ saving (current w2) = false
    /\ In (fst (TodoEditor_onSubmit typed)) (resolved (env w2)).
Proof.
  intros value w Ht Hid typed w2.
  assert (C : current typed =
              {| saving := saving (current w); loading := loading (current w);
                 todo := {| id := None; title := value;
                            done := done (todo (current w)) |};
                 todos := todos (current w) |}).
  { unfold typed, TodoEditor_onChange. rewrite updateTodo_current.
    cbv zeta. unfold spread; simpl. now rewrite Hid. }
  assert (E : env typed = env w)
    by (unfold typed, TodoEditor_onChange; apply updateTodo_env).
  assert (T : timers typed = [])
    by (unfold typed, TodoEditor_onChange, updateTodo;
        now rewrite update_timers).
  split; [now rewrite C|].
  unfold w2, TodoEditor_onSubmit, saveTodo, tick; simpl.
  rewrite update_timers, T. simpl.
  rewrite saveTodo_callback_env, saveTodo_callback_current. simpl.
  rewrite !current_mkWorld, assign_saving_current, assign_saving_env.
  rewrite C, E. simpl. repeat split; auto.
Qed.

Lemma type_and_submit_appends_titled_todo_witness :
  let w := run [EFetch; ETick] (store random_distinct) in
  todos (current (tick (snd (TodoEditor_onSubmit
                               (TodoEditor_onChange "Milk" w)))))
  = todos (current w) ++ [ {| id := Some 4%Z; title := "Milk"; done := false |} ].
Proof.
  pose proof (type_and_submit_appends_titled_todo "Milk"
                (run [EFetch; ETick] (store random_distinct))) as H.
  destruct H as (_ & H & _); [reflexivity | reflexivity | exact H].
Defined.

Lemma filter_out_unique (t x : Todo) (l1 l2 : list Todo) :
  NoDup (map id (l1 ++ x :: l2)) ->
  id t = id x ->
  filter (fun item => negb (strict_eq (id item) (id t))) (l1 ++ x :: l2)
  = l1 ++ l2.
Proof.
  intros Hn Hid. pose proof (distinct_from_unique x l1 l2 Hn) as Hd.
  rewrite Hid, filter_app. simpl. rewrite strict_eq_same. simpl.
  rewrite !filter_all; trivial; intros item Hin; apply negb_true_iff, Hd;
    apply in_or_app; tauto.
Qed.

Lemma step_saving_has_timer (ev : Event) (w : World) :
  (saving (current w) = true ->
   exists t, In t (timers w) /\ clears_saving t = true) ->
  saving (current (step ev w)) = true ->
  exists t, In t (timers (step ev w)) /\ clears_saving t = true.
Proof.
  intros Hw. destruct ev; simpl.
  - rewrite current_mkWorld, assign_loading_current, update_timers. simpl.
    intros H. destruct (Hw H) as (t & Ht & Hc). exists t. split; trivial.
    apply in_or_app. now left.
  - intros _. eexists. split; [apply in_or_app; right; now left|reflexivity].
  - rewrite updateTodo_current. unfold updateTodo. rewrite update_timers.
    exact Hw.
  - intros _. eexists. split; [apply in_or_app; right; now left|reflexivity].
  - rewrite selectTodo_current. unfold selectTodo. rewrite update_timers.
    now destruct t.
  - exact Hw.
  - exact Hw.
  - unfold tick. destruct (timers w) as [|[q|q|t q] ts] eqn:E;
      [rewrite E; exact Hw| | |];
      simpl run_task; rewrite update_timers; simpl timers.
    + rewrite fetchTodos_callback_current, current_mkWorld. simpl.
      intros H. destruct (Hw H) as (t & [<-|Ht] & Hc); [discriminate|].
      now exists t.
    + rewrite saveTodo_callback_current. simpl. discriminate.
    + rewrite removeTodo_callback_current. simpl. discriminate.
Qed.

(** In a reachable state [saving] is true only while a save or a delete is
    in flight. *)
Lemma reachable_saving_has_timer (r : nat -> number) (evs : list Event) :
  saving (current (run evs (store r))) = true ->
  exists t, In t (timers (run evs (store r))) /\ clears_saving t = true.
Proof.
  assert (H0 : saving (current (store r)) = true ->
               exists t, In t (timers (store r)) /\ clears_saving t = true)
    by (simpl; discriminate).
  revert H0. generalize (store r) as w.
  induction evs as [|ev evs IH]; intros w H; simpl; trivial.
  apply IH. now apply step_saving_has_timer.
Qed.

(** There is no Delete button to click for an in-edit todo whose id is
    absent or 0, and none that reacts while [saving] is true. *)
Lemma TodoEditor_onDelete_nothing_to_click (w : World) :
  truthy_id (id (todo (current w))) = false \/ saving (current w) = true ->
  TodoEditor_onDelete w = None.
Proof.
  unfold TodoEditor_onDelete. intros [H|H]; rewrite H; trivial.
  now rewrite andb_false_r.
Qed.

(** [X15] Deleting an item: without id collisions, in a reachable state
    with no timer pending, after a click on an entry of [todos] with a
    non-zero id the Delete button is rendered and enabled; clicking it runs
    [removeTodo] on that entry and ends, when the timer fires, with exactly
    that entry gone, the other entries in place, an empty draft in the
    editor and [saving] false. *)
Theorem click_then_delete_removes_that_item :
  forall (r : nat -> number) (evs : list Event) (a : ObjArg)
         (x : Todo) (l1 l2 : list Todo),
    no_collision r ->
    let w := run evs (store r) in
    timers w = [] ->
    todos (current w) = l1 ++ x :: l2 ->
    arg_content a w = x ->
    truthy_id (id x) = true ->
    let clicked := TodoItem_onClick a w in
    let w2 := tick (snd (removeTodo x clicked)) in
    TodoEditor_onDelete clicked = Some (removeTodo x clicked)
    /\ todos (current w2) = l1 ++ l2
    /\ todo (current w2) = empty_todo
    /\ saving (current w2) = false.
Proof.
  intros r evs a x l1 l2 Hr w Ht Hl Ha Hx clicked w2.
  assert (C : todo (current clicked) = x
              /\ todos (current clicked) = l1 ++ x :: l2
              /\ saving (current clicked) = saving (current w)).
  { unfold clicked, TodoItem_onClick. rewrite selectTodo_current.
    destruct a; simpl in *; now subst. }
  destruct C as (Cx & Cl & Cs).
  assert (S : saving (current w) = false).
  { destruct (saving (current w)) eqn:E; trivial.
    destruct (reachable_saving_has_timer r evs E) as (t & Hin & _).
    fold w in Hin. rewrite Ht in Hin. destruct Hin. }
  assert (T : timers clicked = [])
    by (unfold clicked, TodoItem_onClick, selectTodo;
        now rewrite update_timers).
  destruct (removeTodo_timer_state x clicked T) as (_ & Hf & He & Hs).
  split; [|repeat split; trivial].
  - unfold TodoEditor_onDelete. now rewrite Cx, Cs, S, Hx.
  - unfold w2. rewrite Hf, Cl. apply filter_out_unique; trivial.
    rewrite <- Hl. now apply reachable_ids_NoDup.
Qed.

Lemma click_then_delete_removes_that_item_witness :
  let w := run [EFetch; ETick] (store random_distinct) in
  let x := {| id := Some 1%Z; title := "Hello..."; done := false |} in
  let clicked := TodoItem_onClick (Other x) w in
  TodoEditor_onDelete clicked = Some (removeTodo x clicked)
  /\ todos (current (tick (snd (removeTodo x clicked))))
     = [ {| id := Some 2%Z; title := "World..."; done := false |};
         {| id := Some 3%Z; title := "Hello World..."; done := true |} ].
Proof.
  pose proof (click_then_delete_removes_that_item random_distinct
                [EFetch; ETick]
                (Other {| id := Some 1%Z; title := "Hello..."; done := false |})
                {| id := Some 1%Z; title := "Hello..."; done := false |}
                []
                [ {| id := Some 2%Z; title := "World..."; done := false |};
                  {| id := Some 3%Z; title := "Hello World..."; done := true |} ])
    as H.
  destruct H as (H1 & H2 & _);
    [ unfold no_collision, random_distinct; intros i j E; lia
    | reflexivity | reflexivity | reflexivity | reflexivity
    | split; [exact H1 | exact H2] ].
Defined.
